(** * Browser "open" command: duration and wait-directive parsing, and the
      session lifecycle of [OpenCommand.execute]

    Shallow embedding of [src/commands/browser/open.ts].

    - JavaScript strings are modelled by [string]; every character the code
      inspects (the prefixes [time:], [selector:], [css:], the first colon,
      ASCII digits and the unit letters) is a single ASCII code unit, so
      slicing positions agree with the UTF-16 ones.
    - JavaScript numbers are IEEE-754 doubles.  Every number this code
      computes is a non-negative integer or +Infinity, so a number is
      modelled by [jsnum] and an operation by the exact integer operation
      followed by rounding to the nearest double ([to_double]).
    - The async generator is modelled by a trace monad: a computation threads
      the mutable locals of [execute], appends the items it yields and the
      calls it makes to collaborators, and either completes or throws. *)

From Stdlib Require Import String Ascii List NArith ZArith Bool Lia.
From Stdlib Require Import DecimalString DecimalN DecimalPos.
Import ListNotations.
Open Scope string_scope.

(** ** JavaScript strings *)

Module JsString.

(** [s.startsWith(p)] *)
Fixpoint startsWith (p s : string) : bool :=
  match p with
  | EmptyString => true
  | String a p' =>
      match s with
      | EmptyString => false
      | String b s' => Ascii.eqb a b && startsWith p' s'
      end
  end.

(** [s.slice(n)] for a non-negative [n] *)
Fixpoint slice (n : nat) (s : string) : string :=
  match n with
  | O => s
  | S n' => match s with
            | EmptyString => EmptyString
            | String _ s' => slice n' s'
            end
  end.

(** [s.indexOf(c)] for a one-character needle; [None] stands for -1 *)
Fixpoint indexOf (c : ascii) (s : string) : option nat :=
  match s with
  | EmptyString => None
  | String a s' =>
      if Ascii.eqb a c then Some O
      else option_map S (indexOf c s')
  end.

(** [s.includes(c)] *)
Definition includes (c : ascii) (s : string) : bool :=
  match indexOf c s with Some _ => true | None => false end.

(** truthiness of a string value: the empty string is falsy *)
Definition truthy (s : string) : bool :=
  match s with EmptyString => false | _ => true end.

End JsString.

(** ** JavaScript numbers *)

Module JsNumber.

Inductive jsnum : Type :=
| Fin (n : N)
| Infinity
| NaN.

(** Rounding of a non-negative integer to the nearest double, ties to
    even: 53 significant bits, overflow to +Infinity from 2^1024 on. *)
Definition to_double (n : N) : jsnum :=
  if (n <? 2 ^ 53)%N then Fin n
  else
    let e := (N.log2 n - 52)%N in
    let q := N.shiftr n e in
    let r := (n - N.shiftl q e)%N in
    let half := N.shiftl 1 (e - 1) in
    let q' :=
      if (r <? half)%N then q
      else if (half <? r)%N then (q + 1)%N
      else if N.even q then q else (q + 1)%N in
    let v := N.shiftl q' e in
    if (v <? 2 ^ 1024)%N then Fin v else Infinity.

(** [a * b] on the values that occur here *)
Definition mul (a b : jsnum) : jsnum :=
  match a, b with
  | Fin x, Fin y => to_double (x * y)
  | Infinity, Fin 0 | Fin 0, Infinity => NaN
  | Infinity, (Fin _ | Infinity) | Fin _, Infinity => Infinity
  | NaN, _ | _, NaN => NaN
  end.

Definition is_digit (c : ascii) : bool :=
  let k := N_of_ascii c in (48 <=? k)%N && (k <=? 57)%N.

Definition digit_value (c : ascii) : N := (N_of_ascii c - 48)%N.

(** the mathematical integer denoted by the leading digits of [s],
    continuing from [acc] *)
Fixpoint digits_value (s : string) (acc : N) : N :=
  match s with
  | EmptyString => acc
  | String c s' =>
      if is_digit c then digits_value s' (acc * 10 + digit_value c)%N
      else acc
  end.

(** [parseInt(s, 10)] on a string that starts with a digit (no white
    space and no sign to skip): the integer denoted by the leading digits,
    as a double.  The language standard lets an implementation
    approximate digits after the 20th; this model rounds the exact
    integer. *)
Definition parseInt10 (s : string) : jsnum :=
  match s with
  | EmptyString => NaN
  | String c _ => if is_digit c then to_double (digits_value s 0) else NaN
  end.

End JsNumber.
Import JsNumber.

(** ** Thrown values and results *)

Inductive thrown : Type :=
| ThrownError (message : string)   (* an [Error] object *)
| ThrownOther.                     (* any other thrown value *)

(** [error instanceof Error ? error.message : 'Unknown error'] *)
Definition error_message (e : thrown) : string :=
  match e with
  | ThrownError m => m
  | ThrownOther => "Unknown error"
  end.

Inductive result (A : Type) : Type :=
| Ok (a : A)
| Throw (e : thrown).
Arguments Ok {A} a.
Arguments Throw {A} e.

(** ** Duration parser *)

(** [\d+], greedy: the longest prefix of digits and the rest *)
Fixpoint span_digits (s : string) : string * string :=
  match s with
  | EmptyString => (EmptyString, EmptyString)
  | String c s' =>
      if is_digit c then
        let (ds, rest) := span_digits s' in (String c ds, rest)
      else (EmptyString, s)
  end.

(** [duration.match(/^(\d+)(ms|s|m)$/)]: the two capture groups.  No unit
    starts with a digit, so giving digits back never helps and the greedy
    split is the only candidate; the alternatives are tried in order and [$]
    demands that the unit ends the string. *)
Definition timeRegex_match (duration : string) : option (string * string) :=
  let (value, rest) := span_digits duration in
  match value with
  | EmptyString => None
  | _ =>
      if String.eqb rest "ms" then Some (value, "ms")
      else if String.eqb rest "s" then Some (value, "s")
      else if String.eqb rest "m" then Some (value, "m")
      else None
  end.

Definition parseTimeDuration (duration : string) : option jsnum :=
  match timeRegex_match duration with
  | None => None
  | Some (value, unit) =>
      let numValue := parseInt10 value in
      if String.eqb unit "ms" then Some numValue
      else if String.eqb unit "s" then Some (mul numValue (Fin 1000))
      else if String.eqb unit "m" then Some (mul (mul numValue (Fin 60)) (Fin 1000))
      else None
  end.

(** ** Wait-directive parser *)

Inductive waitConfig : Type :=
| WaitTime (value : jsnum)          (* [{ type: 'time', value }] *)
| WaitSelector (value : string).    (* [{ type: 'selector', value }] *)

Definition invalid_time_format (wait : string) : string :=
  "Invalid time duration format: " ++ wait
    ++ ". Expected format: time:Xs, time:Xms, or time:Xm".

Definition parseWaitParameter (wait : string) : result waitConfig :=
  if JsString.startsWith "time:" wait then
    match parseTimeDuration (JsString.slice 5 wait) with
    | None => Throw (ThrownError (invalid_time_format wait))
    | Some duration => Ok (WaitTime duration)
    end
  else if JsString.startsWith "selector:" wait || JsString.startsWith "css:" wait then
    let selector :=
      if JsString.includes ":" wait then
        match JsString.indexOf ":" wait with
        | Some i => JsString.slice (i + 1) wait
        | None => JsString.slice 0 wait
        end
      else wait in
    Ok (WaitSelector selector)
  else
    match parseTimeDuration wait with
    | Some duration => Ok (WaitTime duration)
    | None =>
        if JsString.startsWith "#" wait || JsString.startsWith "." wait
        then Ok (WaitSelector wait)
        else Ok (WaitSelector wait)
    end.

(** the decimal numeral of a natural number, as the spec's [<n>] *)
Definition decimal (n : N) : string := NilEmpty.string_of_uint (N.to_uint n).

(** a string made of ASCII digits only *)
Fixpoint all_digits (s : string) : bool :=
  match s with
  | EmptyString => true
  | String c s' => is_digit c && all_digits s'
  end.

(** the shape [<integer><unit>] with a unit among [ms], [s] and [m] *)
Definition duration_shape (s : string) : Prop :=
  exists ds u,
    s = ds ++ u /\ ds <> EmptyString /\ all_digits ds = true /\
    (u = "ms" \/ u = "s" \/ u = "m").

(** the largest integer below which every integer is a double *)
Definition MAX_SAFE_INTEGER : N := (2 ^ 53 - 1)%N.

(** ** Requests, configuration and collaborators *)

(** Modelled from the spec: [OpenCommandOptions] is declared in
    [browserOptions], which is not part of the sources at hand.  The fields
    are the ones [execute] reads; an absent field is [None]. *)
Record OpenCommandOptions : Type := {
  url : option string;
  connectTo : option N;
  video : option string;
  html : option bool;
  network : option bool;
  console : option bool;
  viewport : option string;
  headless : option bool;
  timeout : option N;
  wait : option string;
  screenshot : option string;
  debug : option bool
}.

(** truthiness of optional values *)
Definition truthy_string (v : option string) : bool :=
  match v with Some s => JsString.truthy s | None => false end.
Definition truthy_number (v : option N) : bool :=
  match v with Some 0%N | None => false | Some _ => true end.
Definition truthy_bool (v : option bool) : bool :=
  match v with Some b => b | None => false end.

(** [this.config.browser?.headless] and its siblings; an absent [browser]
    section makes the three of them [None] *)
Record Config : Type := {
  browser_headless : option bool;
  browser_defaultViewport : option string;
  browser_timeout : option N
}.

Inductive Browser : Type := BrowserHandle (id : nat).
Inductive BrowserContext : Type := ContextHandle (id : nat).
Record Page : Type := { page_id : nat; page_url : string }.
Inductive Timeout : Type := TimeoutHandle (id : nat).

(** What the collaborators answer during one run.  [execute] calls each of
    them at most once, so one outcome per collaborator describes every run.
    [viewport_size] stands for [split('x').map(Number)] followed by the two
    [isNaN] tests: the pair when neither component is NaN. *)
Record Env : Type := {
  config : Config;
  ensurePlaywright : result unit;
  ensurePlaywrightBrowsers : result unit;
  connectOverCDP : result Browser;
  launch : result Browser;
  contexts : list BrowserContext;
  newContext : result BrowserContext;
  pages : list Page;
  newPage : result Page;
  setViewportSize : result unit;
  viewport_size : string -> option (N * N);
  setupVideoRecording : result (option string);
  setupConsoleLogging : result (list string);
  setupNetworkMonitoring : result (list string);
  reload : result unit;
  goto : result unit;
  waitForLoadState : result unit;
  waitForSelector : result unit;
  outputMessages : list string -> list string -> OpenCommandOptions -> list string;
  content : result string;
  captureScreenshot : result unit;
  stopVideoRecording : result (option string);
  close : result unit
}.

(** ** Progress items, collaborator calls and traces *)

(** One constructor per [yield] of [execute]. *)
Inductive message : Type :=
| ProvideUrl
| Connecting (port : N)
| UsingExistingPage
| LaunchingBrowser
| InvalidViewport (v : string)
| UsingCurrentPage (at_url : string)
| ReloadingCurrentPage (at_url : string)
| NavigatingTo (to : string)
| PageLoaded
| NetworkIdleTimedOut
| WaitError (msg : string)
| Diagnostic (line : string)
| HtmlBegin
| HtmlContent (markup : string)
| HtmlEnd
| ScreenshotSaved (path : string)
| BrowserCommandError (msg : string)
| VideoMessage (msg : string)
| BrowserClosed
| PlaywrightCheckError (msg : string).

Definition newline : string := String (ascii_of_nat 10) EmptyString.

(** the text of each progress item *)
Definition render (m : message) : string :=
  match m with
  | ProvideUrl =>
      "Please provide a URL to open. Usage: vibe-tools browser open <url> [options]"
  | Connecting port =>
      "Connecting to existing Chrome instance on port " ++ decimal port ++ "..."
  | UsingExistingPage => "Using existing page..."
  | LaunchingBrowser => "Launching browser..."
  | InvalidViewport v =>
      "Invalid viewport format: " ++ v
        ++ ". Expected format: <width>x<height> (e.g. 1280x720)"
  | UsingCurrentPage u => "Using current page at " ++ u ++ "..."
  | ReloadingCurrentPage u => "Reloading current page at " ++ u ++ "..."
  | NavigatingTo u => "Navigating to " ++ u ++ "..."
  | PageLoaded => "Page loaded, waiting for networkidle..."
  | NetworkIdleTimedOut =>
      "Timed out waiting for networkidle, continuing with page as it is"
  | WaitError msg => "Wait error: " ++ msg ++ newline
  | Diagnostic line => line
  | HtmlBegin => newline ++ "--- Page HTML Content ---" ++ newline ++ newline
  | HtmlContent markup => markup
  | HtmlEnd => newline ++ "--- End of HTML Content ---" ++ newline
  | ScreenshotSaved path => "Screenshot saved to " ++ path ++ newline
  | BrowserCommandError msg => "Browser command error: " ++ msg
  | VideoMessage msg => msg
  | BrowserClosed => "Browser closed." ++ newline
  | PlaywrightCheckError msg => "Playwright check error: " ++ msg
  end.

(** lines written with [console.log], directly or through [debug] *)
Inductive log_line : Type :=
| LogVideoPath (path : option string)
| LogMonitoringWarning
| LogWaiting (cfg : waitConfig)
| DebugConnected (port : N)
| DebugPages (urls : list string)
| DebugSettingViewport (v : string)
| DebugConsoleMessages (msgs : list string)
| DebugNetworkMessages (msgs : list string)
| DebugNetworkIdleError (e : thrown)
| DebugNavigated (to : string)
| DebugTakingScreenshot.

(** calls to collaborators, with the arguments that matter *)
Inductive call : Type :=
| CallEnsurePlaywright
| CallEnsurePlaywrightBrowsers
| CallConnectOverCDP (port : N)
| CallLaunch (headless : bool)
| CallNewContext (recordVideo : option (option string))
| CallNewPage
| CallSetViewportSize (p : Page) (width height : N)
| CallSetupVideoRecording
| CallSetupConsoleLogging (p : Page)
| CallSetupNetworkMonitoring (p : Page)
| CallReload (p : Page) (timeout : N)
| CallGoto (p : Page) (to : string) (timeout : N)
| CallWaitForLoadState (p : Page) (timeout : N)
| CallSetTimeout (ms : jsnum)
| TimerFired
| CallWaitForSelector (p : Page) (selector : string) (timeout : N)
| CallClearTimeout (t : Timeout)
| CallContent (p : Page)
| CallCaptureScreenshot (p : Page)
| CallStopVideoRecording (p : Page) (path : string)
| CallClose (b : Browser)
| ConsoleLog (l : log_line).

Inductive event : Type :=
| Yield (m : message)
| Call (c : call).

(** the progress sequence the caller receives *)
Definition yields (t : list event) : list message :=
  flat_map (fun e => match e with Yield m => [m] | Call _ => [] end) t.

(** ** The mutable variables of [execute] *)

Record locals : Type := {
  timeouts : list Timeout;
  browser : option Browser;
  context : option BrowserContext;
  page : option Page;
  consoleMessages : list string;
  networkMessages : list string;
  videoPath : option string
}.

Definition initial : locals :=
  {| timeouts := []; browser := None; context := None; page := None;
     consoleMessages := []; networkMessages := []; videoPath := None |}.

Definition set_timeouts (v : list Timeout) (s : locals) : locals :=
  {| timeouts := v; browser := browser s; context := context s; page := page s;
     consoleMessages := consoleMessages s; networkMessages := networkMessages s;
     videoPath := videoPath s |}.
Definition set_browser (v : Browser) (s : locals) : locals :=
  {| timeouts := timeouts s; browser := Some v; context := context s; page := page s;
     consoleMessages := consoleMessages s; networkMessages := networkMessages s;
     videoPath := videoPath s |}.
Definition set_context (v : BrowserContext) (s : locals) : locals :=
  {| timeouts := timeouts s; browser := browser s; context := Some v; page := page s;
     consoleMessages := consoleMessages s; networkMessages := networkMessages s;
     videoPath := videoPath s |}.
Definition set_page (v : Page) (s : locals) : locals :=
  {| timeouts := timeouts s; browser := browser s; context := context s; page := Some v;
     consoleMessages := consoleMessages s; networkMessages := networkMessages s;
     videoPath := videoPath s |}.
Definition set_consoleMessages (v : list string) (s : locals) : locals :=
  {| timeouts := timeouts s; browser := browser s; context := context s; page := page s;
     consoleMessages := v; networkMessages := networkMessages s;
     videoPath := videoPath s |}.
Definition set_networkMessages (v : list string) (s : locals) : locals :=
  {| timeouts := timeouts s; browser := browser s; context := context s; page := page s;
     consoleMessages := consoleMessages s; networkMessages := v;
     videoPath := videoPath s |}.
Definition set_videoPath (v : option string) (s : locals) : locals :=
  {| timeouts := timeouts s; browser := browser s; context := context s; page := page s;
     consoleMessages := consoleMessages s; networkMessages := networkMessages s;
     videoPath := v |}.

(** ** The trace monad *)

Record outcome (A : Type) : Type := {
  trace : list event;
  final : locals;
  res : result A
}.
Arguments trace {A} o.
Arguments final {A} o.
Arguments res {A} o.

Definition M (A : Type) : Type := locals -> outcome A.

Definition ret {A} (a : A) : M A :=
  fun s => {| trace := []; final := s; res := Ok a |}.

Definition throw {A} (e : thrown) : M A :=
  fun s => {| trace := []; final := s; res := Throw e |}.

Definition bind {A B} (c : M A) (k : A -> M B) : M B :=
  fun s =>
    let o := c s in
    match res o with
    | Ok a =>
        let o' := k a (final o) in
        {| trace := trace o ++ trace o'; final := final o'; res := res o' |}
    | Throw e => {| trace := trace o; final := final o; res := Throw e |}
    end.

Declare Scope js_scope.
Delimit Scope js_scope with js.
Notation "x <- c ;; k" := (bind c (fun x => k))
  (at level 100, c at next level, right associativity) : js_scope.
Notation "c ;; k" := (bind c (fun _ => k))
  (at level 100, right associativity) : js_scope.
Open Scope js_scope.

(** [yield m] *)
Definition yield (m : message) : M unit :=
  fun s => {| trace := [Yield m]; final := s; res := Ok tt |}.

(** [await] of a collaborator call whose outcome is [r] *)
Definition await {A} (c : call) (r : result A) : M A :=
  fun s => {| trace := [Call c]; final := s; res := r |}.

(** a call that cannot throw *)
Definition perform (c : call) : M unit := await c (Ok tt).

Definition get : M locals :=
  fun s => {| trace := []; final := s; res := Ok s |}.

Definition modify (f : locals -> locals) : M unit :=
  fun s => {| trace := []; final := f s; res := Ok tt |}.

(** [try { c } catch (error) { h error }] *)
Definition try_catch {A} (c : M A) (h : thrown -> M A) : M A :=
  fun s =>
    let o := c s in
    match res o with
    | Ok a => o
    | Throw e =>
        let o' := h e (final o) in
        {| trace := trace o ++ trace o'; final := final o'; res := res o' |}
    end.

(** [try { c } finally { f }]: [f] runs on every outcome of [c]; what [f]
    throws replaces the outcome of [c] *)
Definition try_finally {A} (c : M A) (f : M unit) : M A :=
  fun s =>
    let o := c s in
    let o' := f (final o) in
    {| trace := trace o ++ trace o';
       final := final o';
       res := match res o' with
              | Ok _ => res o
              | Throw e => Throw e
              end |}.

(** [for (const x of l) { body x }] *)
Fixpoint for_of {A} (l : list A) (body : A -> M unit) : M unit :=
  match l with
  | [] => ret tt
  | x :: l' => body x ;; for_of l' body
  end.

Definition when (b : bool) (c : M unit) : M unit :=
  if b then c else ret tt.

(** ** [OpenCommand.execute] *)

Section Execute.

Variable env : Env.

(** [debug(...)]: [console.log] when [options.debug] is truthy *)
Definition debug_log (options : OpenCommandOptions) (l : log_line) : M unit :=
  when (truthy_bool (debug options)) (perform (ConsoleLog l)).

(** [options.connectTo] when it is truthy *)
Definition connect_port (options : OpenCommandOptions) : option N :=
  if truthy_number (connectTo options) then connectTo options else None.

(** [options.timeout ?? this.config.browser?.timeout ?? 30000] *)
Definition effective_timeout (options : OpenCommandOptions) : N :=
  match timeout options with
  | Some t => t
  | None =>
      match browser_timeout (config env) with
      | Some t => t
      | None => 30000%N
      end
  end.

(** the [recordVideo] argument of [newContext] *)
Definition recordVideo_of (options : OpenCommandOptions) (videoPath : option string)
  : option (option string) :=
  if truthy_string (video options) then Some videoPath else None.

Definition is_internal (p : Page) : bool :=
  JsString.startsWith "chrome://" (page_url p).

(** [pages.find((p) => !p.url().startsWith('chrome://')) || pages[pages.length - 1]]
    when [pages.length > 0]; [None] when there is no page *)
Definition select_page (ps : list Page) : option Page :=
  match ps with
  | [] => None
  | p0 :: _ =>
      Some match find (fun p => negb (is_internal p)) ps with
           | Some p => p
           | None => last ps p0
           end
  end.

(** lines 118-161: attach to a running browser *)
Definition acquire_connect (options : OpenCommandOptions) (port : N) : M Page :=
  yield (Connecting port) ;;
  b <- await (CallConnectOverCDP port) (connectOverCDP env) ;;
  modify (set_browser b) ;;
  debug_log options (DebugConnected port) ;;
  s <- get ;;
  ctx <- match contexts env with
         | c :: _ => ret c
         | [] => await (CallNewContext (recordVideo_of options (videoPath s)))
                       (newContext env)
         end ;;
  modify (set_context ctx) ;;
  debug_log options (DebugPages (map page_url (pages env))) ;;
  p <- match select_page (pages env) with
       | Some p => modify (set_page p) ;; yield UsingExistingPage ;; ret p
       | None => p <- await CallNewPage (newPage env) ;; modify (set_page p) ;; ret p
       end ;;
  match viewport options with
  | Some v =>
      when (JsString.truthy v)
        (debug_log options (DebugSettingViewport v) ;;
         match viewport_size env v with
         | Some (width, height) =>
             await (CallSetViewportSize p width height) (setViewportSize env)
         | None => ret tt
         end)
  | None => ret tt
  end ;;
  ret p.

(** lines 171-203: video path, context, page and viewport of a browser
    that was launched *)
Definition outfit (options : OpenCommandOptions) : M Page :=
  vp <- await CallSetupVideoRecording (setupVideoRecording env) ;;
  modify (set_videoPath vp) ;;
  when (truthy_string (video options)) (perform (ConsoleLog (LogVideoPath vp))) ;;
  ctx <- await (CallNewContext (recordVideo_of options vp)) (newContext env) ;;
  modify (set_context ctx) ;;
  p <- await CallNewPage (newPage env) ;;
  modify (set_page p) ;;
  (if truthy_string (viewport options) then
     match viewport options with
     | Some v =>
         match viewport_size env v with
         | Some (width, height) =>
             await (CallSetViewportSize p width height) (setViewportSize env)
         | None => yield (InvalidViewport v)
         end
     | None => ret tt
     end
   else if truthy_string (browser_defaultViewport (config env)) then
     match browser_defaultViewport (config env) with
     | Some v =>
         match viewport_size env v with
         | Some (width, height) =>
             await (CallSetViewportSize p width height) (setViewportSize env)
         | None => ret tt
         end
     | None => ret tt
     end
   else ret tt) ;;
  ret p.

(** lines 163-203: launch a browser of our own *)
Definition acquire_launch (options : OpenCommandOptions) : M Page :=
  yield LaunchingBrowser ;;
  b <- await (CallLaunch match headless options with
                         | Some h => h
                         | None => match browser_headless (config env) with
                                   | Some h => h
                                   | None => true
                                   end
                         end)
             (launch env) ;;
  modify (set_browser b) ;;
  outfit options.

(** lines 118-204 *)
Definition acquire (options : OpenCommandOptions) : M Page :=
  match connect_port options with
  | Some port => acquire_connect options port
  | None => acquire_launch options
  end.

Definition is_connect (options : OpenCommandOptions) : bool :=
  truthy_number (connectTo options).

(** lines 206-215: console and network collectors *)
Definition monitor (options : OpenCommandOptions) (url : string) (p : Page) : M unit :=
  when (String.eqb url "current" && is_connect options)
    (perform (ConsoleLog LogMonitoringWarning)) ;;
  cm <- await (CallSetupConsoleLogging p) (setupConsoleLogging env) ;;
  modify (set_consoleMessages cm) ;;
  debug_log options (DebugConsoleMessages cm) ;;
  nm <- await (CallSetupNetworkMonitoring p) (setupNetworkMonitoring env) ;;
  modify (set_networkMessages nm) ;;
  debug_log options (DebugNetworkMessages nm).

(** lines 217-240: navigation by the kind of [url] *)
Definition navigate (options : OpenCommandOptions) (url : string) (p : Page) : M unit :=
  if String.eqb url "current" && is_connect options then
    yield (UsingCurrentPage (page_url p))
  else if String.eqb url "reload-current" && is_connect options then
    yield (ReloadingCurrentPage (page_url p)) ;;
    await (CallReload p (effective_timeout options)) (reload env)
  else
    yield (NavigatingTo url) ;;
    await (CallGoto p url (effective_timeout options)) (goto env) ;;
    yield PageLoaded ;;
    try_catch
      (await (CallWaitForLoadState p (effective_timeout options)) (waitForLoadState env))
      (fun error =>
         debug_log options (DebugNetworkIdleError error) ;;
         yield NetworkIdleTimedOut) ;;
    debug_log options (DebugNavigated url).

(** lines 242-261: the wait directive *)
Definition wait_for (options : OpenCommandOptions) (p : Page) : M unit :=
  match wait options with
  | Some w =>
      when (JsString.truthy w)
        (try_catch
           (match parseWaitParameter w with
            | Throw e => throw e
            | Ok waitConfig =>
                perform (ConsoleLog (LogWaiting waitConfig)) ;;
                match waitConfig with
                | WaitTime value =>
                    perform (CallSetTimeout value) ;;
                    perform TimerFired
                | WaitSelector value =>
                    await (CallWaitForSelector p value (effective_timeout options))
                          (waitForSelector env)
                end
            end)
           (fun error => yield (WaitError (error_message error))))
  | None => ret tt
  end.

(** lines 264-267, 290-293 and 297-300 *)
Definition clear_timeouts : M unit :=
  s <- get ;;
  for_of (timeouts s) (fun t => perform (CallClearTimeout t)) ;;
  modify (set_timeouts []).

(** lines 269-287: diagnostics, markup and screenshot *)
Definition report (options : OpenCommandOptions) (p : Page) : M unit :=
  s <- get ;;
  for_of (outputMessages env (consoleMessages s) (networkMessages s) options)
         (fun m => yield (Diagnostic m)) ;;
  match html options with
  | Some true =>
      htmlContent <- await (CallContent p) (content env) ;;
      yield HtmlBegin ;;
      yield (HtmlContent htmlContent) ;;
      yield HtmlEnd
  | _ => ret tt
  end ;;
  debug_log options DebugTakingScreenshot ;;
  await (CallCaptureScreenshot p) (captureScreenshot env) ;;
  match screenshot options with
  | Some path => when (JsString.truthy path) (yield (ScreenshotSaved path))
  | None => ret tt
  end.

(** what follows navigation in the inner [try] block *)
Definition after_navigation (options : OpenCommandOptions) (p : Page) : M unit :=
  wait_for options p ;;
  clear_timeouts ;;
  report options p.

(** the inner [try] block, lines 118-287 *)
Definition operation (options : OpenCommandOptions) (url : string) : M unit :=
  p <- acquire options ;;
  monitor options url p ;;
  navigate options url p ;;
  after_navigation options p.

(** the inner [catch] block, lines 289-294 *)
Definition report_error (error : thrown) : M unit :=
  clear_timeouts ;;
  yield (BrowserCommandError (error_message error)).

(** lines 302-307: finalization of the video recording *)
Definition finalize_video : M unit :=
  s <- get ;;
  match videoPath s, page s with
  | Some path, Some p =>
      when (JsString.truthy path)
        (videoMessage <- await (CallStopVideoRecording p path) (stopVideoRecording env) ;;
         match videoMessage with
         | Some m => when (JsString.truthy m) (yield (VideoMessage m))
         | None => ret tt
         end)
  | _, _ => ret tt
  end.

(** lines 308-313: release of the browser, or of the connection to it *)
Definition close_browser (options : OpenCommandOptions) : M unit :=
  s <- get ;;
  match browser s with
  | Some b =>
      if negb (is_connect options) then
        await (CallClose b) (close env) ;;
        yield BrowserClosed
      else
        await (CallClose b) (close env)
  | None => ret tt
  end.

(** the [finally] block, lines 296-313 *)
Definition cleanup (options : OpenCommandOptions) : M unit :=
  clear_timeouts ;;
  finalize_video ;;
  close_browser options.

(** lines 101-107 *)
Definition with_defaults (options : OpenCommandOptions) : OpenCommandOptions :=
  {| url := url options; connectTo := connectTo options; video := video options;
     html := match html options with None => Some false | h => h end;
     network := match network options with None => Some true | n => n end;
     console := match console options with None => Some true | c => c end;
     viewport := viewport options; headless := headless options;
     timeout := timeout options; wait := wait options;
     screenshot := screenshot options; debug := debug options |}.

(** lines 83-85 *)
Definition with_url (query : string) (options : OpenCommandOptions) : OpenCommandOptions :=
  if negb (truthy_string (url options)) && JsString.truthy query then
    {| url := Some query; connectTo := connectTo options; video := video options;
       html := html options; network := network options; console := console options;
       viewport := viewport options; headless := headless options;
       timeout := timeout options; wait := wait options;
       screenshot := screenshot options; debug := debug options |}
  else options.

Definition video_conflict : string :=
  "Cannot use --video when connecting to an existing Chrome instance (--connect-to). Video recording is only available when launching a new browser instance.".

(** the outer [try] block, lines 78-314 *)
Definition guarded (query : string) (options : OpenCommandOptions) : M unit :=
  await CallEnsurePlaywright (ensurePlaywright env) ;;
  await CallEnsurePlaywrightBrowsers (ensurePlaywrightBrowsers env) ;;
  let options := with_url query options in
  match url options with
  | Some url =>
      if JsString.truthy url then
        if is_connect options && truthy_string (video options) then
          throw (ThrownError video_conflict)
        else
          let options := with_defaults options in
          try_finally
            (try_catch (operation options url) report_error)
            (cleanup options)
      else yield ProvideUrl
  | None => yield ProvideUrl
  end.

(** the whole generator, run to its end from the initial variables *)
Definition execute (query : string) (options : OpenCommandOptions) : outcome unit :=
  try_catch (guarded query options)
    (fun error => yield (PlaywrightCheckError (error_message error)))
    initial.

(** the items and calls of a run, in order *)
Definition run (query : string) (options : OpenCommandOptions) : list event :=
  trace (execute query options).

End Execute.

(** an outcome reached after the events [t] *)
Definition prepend {A} (t : list event) (o : outcome A) : outcome A :=
  {| trace := t ++ trace o; final := final o; res := res o |}.

(** what the outer [catch] block (lines 315-317) adds to an outcome of the
    outer [try] block *)
Definition report_failure {A} (o : outcome A) : list event :=
  match res o with
  | Ok _ => []
  | Throw error => [Yield (PlaywrightCheckError (error_message error))]
  end.

(** ** Invariants of computations *)

(** from a state in [Pre], the computation ends (normally or by a throw) in
    a state in [Post] and emits only events in [P] *)
Definition triple {A} (Pre Post : locals -> Prop) (P : event -> Prop) (c : M A) : Prop :=
  forall s, Pre s -> Post (final (c s)) /\ Forall P (trace (c s)).

(** events that release a resource of the session *)
Definition teardown (e : event) : Prop :=
  match e with
  | Call (CallClose _) | Call (CallStopVideoRecording _ _) | Yield BrowserClosed => True
  | _ => False
  end.

(** events that move the page, finalize a video or announce the end of a
    browser of our own *)
Definition disturbing (e : event) : Prop :=
  match e with
  | Call (CallGoto _ _ _) | Call (CallReload _ _) | Call (CallWaitForLoadState _ _)
  | Call (CallLaunch _) | Call (CallStopVideoRecording _ _)
  | Yield BrowserClosed => True
  | _ => False
  end.

(** the events of the finalization of a video *)
Definition video_event (e : event) : Prop :=
  match e with
  | Call (CallStopVideoRecording _ _) | Yield (VideoMessage _) => True
  | _ => False
  end.

(** the browser [b] is held and no timer is pending *)
Definition owns (b : Browser) (s : locals) : Prop :=
  browser s = Some b /\ timeouts s = [].

(** the browser [b] is held, and a video is recorded to [path] on page [p] *)
Definition records (b : Browser) (path : string) (p : Page) (s : locals) : Prop :=
  owns b s /\ videoPath s = Some path /\ page s = Some p.

(** events that release nothing *)
Definition quiet (e : event) : Prop := ~ teardown e.

(** every run of [c] that completes normally emits the progress items [ys] *)
Definition yields_on_success {A} (c : M A) (ys : list message) : Prop :=
  forall s a, res (c s) = Ok a -> yields (trace (c s)) = ys.

(** an event of a session attached to the browser behind [connected]: it
    disturbs nothing, and it closes nothing but the connection handle *)
Definition attached_event (connected : result Browser) (e : event) : Prop :=
  ~ disturbing e /\ forall b, e = Call (CallClose b) -> connected = Ok b.

(** the locals of a session attached to the browser behind [connected] *)
Definition attached_state (connected : result Browser) (s : locals) : Prop :=
  videoPath s = None /\ forall b, browser s = Some b -> connected = Ok b.

(** a computation of a session attached to the browser of [env] *)
Definition stays_attached (env : Env) {A} (c : M A) : Prop :=
  triple (attached_state (connectOverCDP env)) (attached_state (connectOverCDP env))
         (attached_event (connectOverCDP env)) c.

(** ** Stages of the operation *)

Section Stages.

Variable env : Env.

(** the operation up to the attached collectors: page acquired and
    monitored (lines 118-215) *)
Definition attached (options : OpenCommandOptions) (url : string) : M Page :=
  p <- acquire env options ;;
  monitor env options url p ;;
  ret p.

(** the operation up to the end of navigation (lines 118-240) *)
Definition settled (options : OpenCommandOptions) (url : string) : M Page :=
  p <- attached options url ;;
  navigate env options url p ;;
  ret p.

(** a continuation of the inner [try] block, with its [catch] and
    [finally] blocks *)
Definition protected (options : OpenCommandOptions) (c : M unit) : M unit :=
  try_finally (try_catch c (report_error)) (cleanup env options).

(** a request passes the preflight checks and the validation of lines
    83-99 and enters the inner [try] block with [options'] and the address [target] *)
Definition admitted (query : string) (options options' : OpenCommandOptions)
           (target : string) : Prop :=
  ensurePlaywright env = Ok tt /\
  ensurePlaywrightBrowsers env = Ok tt /\
  url (with_url query options) = Some target /\
  JsString.truthy target = true /\
  is_connect options && truthy_string (video options) = false /\
  options' = with_defaults (with_url query options).

(** the calls made for a wait directive before it fails: none when the
    directive is malformed, the selector wait otherwise *)
Definition wait_attempt (options : OpenCommandOptions) (p : Page) (w : string)
  : list event :=
  match parseWaitParameter w with
  | Ok (WaitSelector sel) =>
      [Call (ConsoleLog (LogWaiting (WaitSelector sel)));
       Call (CallWaitForSelector p sel (effective_timeout env options))]
  | _ => []
  end.

End Stages.

(** the two preflight calls *)
Definition preflight : list event :=
  [Call CallEnsurePlaywright; Call CallEnsurePlaywrightBrowsers].


(** ** Scenarios *)

Module Scenario.

Definition request (url : string) (connectTo : option N) (wait : option string)
  : OpenCommandOptions :=
  {| url := Some url; connectTo := connectTo; video := None; html := None;
     network := None; console := None; viewport := None; headless := None;
     timeout := None; wait := wait; screenshot := None; debug := None |}.

Definition blank : Page := {| page_id := 1; page_url := "about:blank" |}.
Definition example_page : Page := {| page_id := 7; page_url := "https://example.com/" |}.
Definition new_tab : Page := {| page_id := 3; page_url := "chrome://newtab/" |}.

(** the handle of a browser attached to, and of a browser launched *)
Definition remote : result Browser := Ok (BrowserHandle 1).
Definition own : result Browser := Ok (BrowserHandle 0).

(** every collaborator succeeds, but for the given answers; the browser
    attached to has one context with the pages [open_pages]; [recorded] is
    the path of the video recording, if any *)
Definition world (connected launched : result Browser) (open_pages : list Page)
           (idle selector : result unit) (recorded : option string) : Env :=
  {| config := {| browser_headless := None; browser_defaultViewport := None;
                  browser_timeout := None |};
     ensurePlaywright := Ok tt;
     ensurePlaywrightBrowsers := Ok tt;
     connectOverCDP := connected;
     launch := launched;
     contexts := [ContextHandle 1];
     newContext := Ok (ContextHandle 2);
     pages := open_pages;
     newPage := Ok blank;
     setViewportSize := Ok tt;
     viewport_size := fun _ => None;
     setupVideoRecording := Ok recorded;
     setupConsoleLogging := Ok [];
     setupNetworkMonitoring := Ok [];
     reload := Ok tt;
     goto := Ok tt;
     waitForLoadState := idle;
     waitForSelector := selector;
     outputMessages := fun c n _ => List.app c n;
     content := Ok "<html></html>";
     captureScreenshot := Ok tt;
     stopVideoRecording :=
       Ok match recorded with
          | Some path => Some ("Video saved to " ++ path)
          | None => None
          end;
     close := Ok tt |}.

Definition healthy : Env := world remote own [] (Ok tt) (Ok tt) None.

Definition launch_failure : thrown := ThrownError "Executable doesn't exist".
Definition broken_launch : Env := world remote (Throw launch_failure) [] (Ok tt) (Ok tt) None.

Definition one_tab : Env :=
  world remote own [example_page] (Ok tt) (Ok tt) None.
Definition only_new_tab : Env :=
  world remote own [new_tab] (Ok tt) (Ok tt) None.

Definition idle_timeout : thrown := ThrownError "Timeout 30000ms exceeded.".
Definition hidden_element : Env :=
  world remote own [] (Ok tt) (Throw idle_timeout) None.

Definition connection_refused : thrown :=
  ThrownError "connect ECONNREFUSED 127.0.0.1:9222".
Definition refused : Env :=
  world (Throw connection_refused) own [] (Ok tt) (Ok tt) None.

Definition filming : Env :=
  world remote own [] (Ok tt) (Ok tt) (Some "videos/run.webm").
Definition filmed_request : OpenCommandOptions :=
  {| url := Some "https://example.com"; connectTo := None;
     video := Some "videos"; html := None; network := None; console := None;
     viewport := None; headless := None; timeout := None; wait := None;
     screenshot := None; debug := None |}.

End Scenario.

(** ** Observations of a run *)

(** the request with [query] as its target (line 84) *)
Definition with_target (query : string) (options : OpenCommandOptions)
  : OpenCommandOptions :=
  {| url := Some query; connectTo := connectTo options; video := video options;
     html := html options; network := network options; console := console options;
     viewport := viewport options; headless := headless options;
     timeout := timeout options; wait := wait options;
     screenshot := screenshot options; debug := debug options |}.

(** the report of the outer [catch] block for the thrown value [e] *)
Definition check_error (e : thrown) : event :=
  Yield (PlaywrightCheckError (error_message e)).

(** the report of the inner [catch] block for the thrown value [e] *)
Definition command_error (e : thrown) : event :=
  Yield (BrowserCommandError (error_message e)).

(** the same collaborators, with another answer to the first preflight check *)
Definition with_preflight (r : result unit) (env : Env) : Env :=
  {| config := config env;
     ensurePlaywright := r;
     ensurePlaywrightBrowsers := ensurePlaywrightBrowsers env;
     connectOverCDP := connectOverCDP env;
     launch := launch env;
     contexts := contexts env;
     newContext := newContext env;
     pages := pages env;
     newPage := newPage env;
     setViewportSize := setViewportSize env;
     viewport_size := viewport_size env;
     setupVideoRecording := setupVideoRecording env;
     setupConsoleLogging := setupConsoleLogging env;
     setupNetworkMonitoring := setupNetworkMonitoring env;
     reload := reload env;
     goto := goto env;
     waitForLoadState := waitForLoadState env;
     waitForSelector := waitForSelector env;
     outputMessages := outputMessages env;
     content := content env;
     captureScreenshot := captureScreenshot env;
     stopVideoRecording := stopVideoRecording env;
     close := close env |}.

(** events of the outer guard: the preflight checks, the usage message and
    the report of the outer [catch] block *)
Definition outer_event (e : event) : Prop :=
  match e with
  | Call CallEnsurePlaywright | Call CallEnsurePlaywrightBrowsers
  | Yield ProvideUrl | Yield (PlaywrightCheckError _) => True
  | _ => False
  end.

(** events that leave a browser attached to as it is: nothing is launched,
    no video is set up, recorded or finalized, no viewport complaint and no
    "Browser closed." item is emitted, and the only handle closed is the one
    that [connected] answered *)
Definition remote_safe (connected : result Browser) (e : event) : Prop :=
  match e with
  | Call (CallLaunch _) | Call CallSetupVideoRecording
  | Call (CallStopVideoRecording _ _) | Call (CallNewContext (Some _))
  | Yield LaunchingBrowser | Yield (InvalidViewport _) | Yield BrowserClosed => False
  | Call (CallClose b) => connected = Ok b
  | _ => True
  end.

(** events of a session on a browser of our own: no connection is made, no
    existing page is used or reloaded, and the only handle closed is the one
    that [launched] answered *)
Definition own_session (launched : result Browser) (e : event) : Prop :=
  match e with
  | Call (CallConnectOverCDP _) | Call (CallReload _ _)
  | Yield (Connecting _) | Yield UsingExistingPage
  | Yield (UsingCurrentPage _) | Yield (ReloadingCurrentPage _) => False
  | Call (CallClose b) => launched = Ok b
  | _ => True
  end.

(** the browser held, if any, is the one that [acquired] answered *)
Definition holds_only (acquired : result Browser) (s : locals) : Prop :=
  forall b, browser s = Some b -> acquired = Ok b.

(** the same collaborators, with another answer to [page.goto] *)
Definition with_goto (r : result unit) (env : Env) : Env :=
  {| config := config env;
     ensurePlaywright := ensurePlaywright env;
     ensurePlaywrightBrowsers := ensurePlaywrightBrowsers env;
     connectOverCDP := connectOverCDP env;
     launch := launch env;
     contexts := contexts env;
     newContext := newContext env;
     pages := pages env;
     newPage := newPage env;
     setViewportSize := setViewportSize env;
     viewport_size := viewport_size env;
     setupVideoRecording := setupVideoRecording env;
     setupConsoleLogging := setupConsoleLogging env;
     setupNetworkMonitoring := setupNetworkMonitoring env;
     reload := reload env;
     goto := r;
     waitForLoadState := waitForLoadState env;
     waitForSelector := waitForSelector env;
     outputMessages := outputMessages env;
     content := content env;
     captureScreenshot := captureScreenshot env;
     stopVideoRecording := stopVideoRecording env;
     close := close env |}.


(** the same collaborators, with another answer to [browser.close] *)
Definition with_close (r : result unit) (env : Env) : Env :=
  {| config := config env;
     ensurePlaywright := ensurePlaywright env;
     ensurePlaywrightBrowsers := ensurePlaywrightBrowsers env;
     connectOverCDP := connectOverCDP env;
     launch := launch env;
     contexts := contexts env;
     newContext := newContext env;
     pages := pages env;
     newPage := newPage env;
     setViewportSize := setViewportSize env;
     viewport_size := viewport_size env;
     setupVideoRecording := setupVideoRecording env;
     setupConsoleLogging := setupConsoleLogging env;
     setupNetworkMonitoring := setupNetworkMonitoring env;
     reload := reload env;
     goto := goto env;
     waitForLoadState := waitForLoadState env;
     waitForSelector := waitForSelector env;
     outputMessages := outputMessages env;
     content := content env;
     captureScreenshot := captureScreenshot env;
     stopVideoRecording := stopVideoRecording env;
     close := r |}.

(** the same collaborators, with another answer to [captureScreenshot] *)
Definition with_captureScreenshot (r : result unit) (env : Env) : Env :=
  {| config := config env;
     ensurePlaywright := ensurePlaywright env;
     ensurePlaywrightBrowsers := ensurePlaywrightBrowsers env;
     connectOverCDP := connectOverCDP env;
     launch := launch env;
     contexts := contexts env;
     newContext := newContext env;
     pages := pages env;
     newPage := newPage env;
     setViewportSize := setViewportSize env;
     viewport_size := viewport_size env;
     setupVideoRecording := setupVideoRecording env;
     setupConsoleLogging := setupConsoleLogging env;
     setupNetworkMonitoring := setupNetworkMonitoring env;
     reload := reload env;
     goto := goto env;
     waitForLoadState := waitForLoadState env;
     waitForSelector := waitForSelector env;
     outputMessages := outputMessages env;
     content := content env;
     captureScreenshot := r;
     stopVideoRecording := stopVideoRecording env;
     close := close env |}.

(** the same collaborators, with another answer to [page.content] *)
Definition with_content (r : result string) (env : Env) : Env :=
  {| config := config env;
     ensurePlaywright := ensurePlaywright env;
     ensurePlaywrightBrowsers := ensurePlaywrightBrowsers env;
     connectOverCDP := connectOverCDP env;
     launch := launch env;
     contexts := contexts env;
     newContext := newContext env;
     pages := pages env;
     newPage := newPage env;
     setViewportSize := setViewportSize env;
     viewport_size := viewport_size env;
     setupVideoRecording := setupVideoRecording env;
     setupConsoleLogging := setupConsoleLogging env;
     setupNetworkMonitoring := setupNetworkMonitoring env;
     reload := reload env;
     goto := goto env;
     waitForLoadState := waitForLoadState env;
     waitForSelector := waitForSelector env;
     outputMessages := outputMessages env;
     content := r;
     captureScreenshot := captureScreenshot env;
     stopVideoRecording := stopVideoRecording env;
     close := close env |}.

(** the same collaborators, with another answer to [browser.contexts()] *)
Definition with_contexts (r : list BrowserContext) (env : Env) : Env :=
  {| config := config env;
     ensurePlaywright := ensurePlaywright env;
     ensurePlaywrightBrowsers := ensurePlaywrightBrowsers env;
     connectOverCDP := connectOverCDP env;
     launch := launch env;
     contexts := r;
     newContext := newContext env;
     pages := pages env;
     newPage := newPage env;
     setViewportSize := setViewportSize env;
     viewport_size := viewport_size env;
     setupVideoRecording := setupVideoRecording env;
     setupConsoleLogging := setupConsoleLogging env;
     setupNetworkMonitoring := setupNetworkMonitoring env;
     reload := reload env;
     goto := goto env;
     waitForLoadState := waitForLoadState env;
     waitForSelector := waitForSelector env;
     outputMessages := outputMessages env;
     content := content env;
     captureScreenshot := captureScreenshot env;
     stopVideoRecording := stopVideoRecording env;
     close := close env |}.

(** the same collaborators, with another answer to [stopVideoRecording] *)
Definition with_stopVideoRecording (r : result (option string)) (env : Env) : Env :=
  {| config := config env;
     ensurePlaywright := ensurePlaywright env;
     ensurePlaywrightBrowsers := ensurePlaywrightBrowsers env;
     connectOverCDP := connectOverCDP env;
     launch := launch env;
     contexts := contexts env;
     newContext := newContext env;
     pages := pages env;
     newPage := newPage env;
     setViewportSize := setViewportSize env;
     viewport_size := viewport_size env;
     setupVideoRecording := setupVideoRecording env;
     setupConsoleLogging := setupConsoleLogging env;
     setupNetworkMonitoring := setupNetworkMonitoring env;
     reload := reload env;
     goto := goto env;
     waitForLoadState := waitForLoadState env;
     waitForSelector := waitForSelector env;
     outputMessages := outputMessages env;
     content := content env;
     captureScreenshot := captureScreenshot env;
     stopVideoRecording := r;
     close := close env |}.

(** the retrieval of the page markup and the three items that frame it *)
Definition markup_event (e : event) : Prop :=
  match e with
  | Call (CallContent _) | Yield HtmlBegin | Yield (HtmlContent _) | Yield HtmlEnd => True
  | _ => False
  end.

(** a screenshot confirmation is backed by a successful capture and names
    the path of the request *)
Definition backed_confirmation (capture : result unit) (requested : option string)
           (e : event) : Prop :=
  match e with
  | Yield (ScreenshotSaved path) =>
      capture = Ok tt /\ requested = Some path /\ JsString.truthy path = true
  | _ => True
  end.

(** every call that takes a timeout is given [t] *)
Definition timed_by (t : N) (e : event) : Prop :=
  match e with
  | Call (CallGoto _ _ t') | Call (CallReload _ t')
  | Call (CallWaitForLoadState _ t') | Call (CallWaitForSelector _ _ t') => t' = t
  | _ => True
  end.



(** [browser.close()] *)
Definition is_close (e : event) : bool :=
  match e with Call (CallClose _) => true | _ => false end.

(** how many times a trace closes a browser handle *)
Definition closes (t : list event) : nat := length (filter is_close t).

(** where the size of a viewport comes from, for a request with the
    [viewport] option [requested] in a session that is attached
    ([connected]) or launched: the size set is the one read from the option
    when it is given, else (for a launched browser only) the one read from
    the configured default; a complaint about the format is emitted only
    for an option that cannot be read, and only for a launched browser *)
Definition viewport_event (env : Env) (requested : option string) (connected : bool)
           (e : event) : Prop :=
  match e with
  | Call (CallSetViewportSize _ width height) =>
      exists v,
        viewport_size env v = Some (width, height) /\
        JsString.truthy v = true /\
        (requested = Some v \/
         (connected = false /\ truthy_string requested = false /\
          browser_defaultViewport (config env) = Some v))
  | Yield (InvalidViewport v) =>
      connected = false /\ requested = Some v /\ JsString.truthy v = true /\
      viewport_size env v = None
  | _ => True
  end.

(** the diagnostics lines among the events of a run, in order *)
Definition diagnostics (t : list event) : list string :=
  flat_map (fun e => match e with Yield (Diagnostic line) => [line] | _ => [] end) t.

(** an event that is not a diagnostics line *)
Definition not_diagnostic (e : event) : Prop :=
  match e with Yield (Diagnostic _) => False | _ => True end.

(** the same collaborators, with collectors that return the buffers [cm] and [nm] *)
Definition with_buffers (cm nm : list string) (env : Env) : Env :=
  {| config := config env;
     ensurePlaywright := ensurePlaywright env;
     ensurePlaywrightBrowsers := ensurePlaywrightBrowsers env;
     connectOverCDP := connectOverCDP env;
     launch := launch env;
     contexts := contexts env;
     newContext := newContext env;
     pages := pages env;
     newPage := newPage env;
     setViewportSize := setViewportSize env;
     viewport_size := viewport_size env;
     setupVideoRecording := setupVideoRecording env;
     setupConsoleLogging := Ok cm;
     setupNetworkMonitoring := Ok nm;
     reload := reload env;
     goto := goto env;
     waitForLoadState := waitForLoadState env;
     waitForSelector := waitForSelector env;
     outputMessages := outputMessages env;
     content := content env;
     captureScreenshot := captureScreenshot env;
     stopVideoRecording := stopVideoRecording env;
     close := close env |}.

(** the two buffers hold what the collectors returned *)
Definition buffers_hold (cm nm : list string) (s : locals) : Prop :=
  consoleMessages s = cm /\ networkMessages s = nm.

(** a call that moves page [p]: [goto] or [reload] *)
Definition navigates (p : Page) (e : event) : Prop :=
  match e with
  | Call (CallGoto p' _ _) | Call (CallReload p' _) => p' = p
  | _ => False
  end.

(** an event that moves no page *)
Definition still (e : event) : Prop :=
  match e with
  | Call (CallGoto _ _ _) | Call (CallReload _ _) => False
  | _ => True
  end.

(** a navigation, if the event is one, is of page [p] *)
Definition moves_only (p : Page) (e : event) : Prop :=
  match e with
  | Call (CallGoto p' _ _) | Call (CallReload p' _) => p' = p
  | _ => True
  end.

(** an event that is none of the three markup items *)
Definition plain (e : event) : Prop :=
  match e with
  | Yield HtmlBegin | Yield (HtmlContent _) | Yield HtmlEnd => False
  | _ => True
  end.

(** the markup of a page between its two frame lines (lines 277-279) *)
Definition framed_markup (markup : string) : list event :=
  [Yield HtmlBegin; Yield (HtmlContent markup); Yield HtmlEnd].

Section Capture.

Variable env : Env.

(** lines 282-287 of [report]: the screenshot *)
Definition shoot (options : OpenCommandOptions) (p : Page) : M unit :=
  debug_log options DebugTakingScreenshot ;;
  await (CallCaptureScreenshot p) (captureScreenshot env) ;;
  match screenshot options with
  | Some path => when (JsString.truthy path) (yield (ScreenshotSaved path))
  | None => ret tt
  end.

(** lines 274-287 of [report]: what follows the diagnostics *)
Definition capture (options : OpenCommandOptions) (p : Page) : M unit :=
  match html options with
  | Some true =>
      htmlContent <- await (CallContent p) (content env) ;;
      yield HtmlBegin ;;
      yield (HtmlContent htmlContent) ;;
      yield HtmlEnd
  | _ => ret tt
  end ;;
  shoot options p.

End Capture.

(** * Properties *)

(** ** Strings and numerals *)

Lemma startsWith_app (p s : string) : JsString.startsWith p (p ++ s) = true.
Proof.
  induction p as [|a p IH]; simpl; [reflexivity|].
  now rewrite Ascii.eqb_refl.
Qed.

Lemma startsWith_inv (p s : string) :
  JsString.startsWith p s = true -> s = p ++ JsString.slice (String.length p) s.
Proof.
  revert s; induction p as [|a p IH]; intros s H; simpl in *; [reflexivity|].
  destruct s as [|b s]; [discriminate|].
  apply andb_true_iff in H as [Hab H].
  apply Ascii.eqb_eq in Hab; subst b.
  now rewrite <- (IH s H).
Qed.

Lemma slice_app (p s : string) : JsString.slice (String.length p) (p ++ s) = s.
Proof. induction p as [|a p IH]; simpl; auto. Qed.

Lemma span_digits_sound (s v rest : string) :
  span_digits s = (v, rest) -> s = v ++ rest /\ all_digits v = true.
Proof.
  revert v rest; induction s as [|c s IH]; simpl; intros v rest H.
  - inversion H; subst; auto.
  - destruct (is_digit c) eqn:Hc.
    + destruct (span_digits s) as [ds r] eqn:Hs.
      inversion H; subst; clear H.
      destruct (IH ds rest eq_refl) as [-> Hd].
      simpl; rewrite Hc, Hd; auto.
    + inversion H; subst; auto.
Qed.

Lemma span_digits_app (ds : string) (c : ascii) (rest : string) :
  all_digits ds = true -> is_digit c = false ->
  span_digits (ds ++ String c rest) = (ds, String c rest).
Proof.
  intros Hd Hc; induction ds as [|a ds IH]; simpl in *.
  - now rewrite Hc.
  - apply andb_true_iff in Hd as [Ha Hd].
    now rewrite Ha, (IH Hd).
Qed.

Lemma all_digits_uint (d : Decimal.uint) :
  all_digits (NilEmpty.string_of_uint d) = true.
Proof. induction d; simpl; auto. Qed.

Lemma decimal_digits (n : N) : all_digits (decimal n) = true.
Proof. apply all_digits_uint. Qed.

Lemma decimal_nonempty (n : N) : decimal n <> EmptyString.
Proof.
  unfold decimal; destruct n as [|p]; simpl; [discriminate|].
  pose proof (DecimalPos.Unsigned.to_uint_nonnil p) as Hn.
  destruct (Pos.to_uint p); simpl; congruence.
Qed.

Lemma digits_value_revapp (d a : Decimal.uint) :
  digits_value (NilEmpty.string_of_uint d) (DecimalPos.Unsigned.of_lu a)
  = DecimalPos.Unsigned.of_lu (Decimal.revapp d a).
Proof.
  revert a; induction d; intros a; [reflexivity|..];
    cbn [NilEmpty.string_of_uint Decimal.revapp digits_value];
    (change (is_digit _) with true; cbv iota);
    rewrite <- IHd; f_equal;
    match goal with
    | |- _ = DecimalPos.Unsigned.of_lu ?x =>
        rewrite (DecimalPos.Unsigned.of_lu_eqn x)
    end;
    cbn [DecimalPos.Unsigned.hd DecimalPos.Unsigned.tl];
    (match goal with |- context [digit_value ?c] =>
       let v := eval vm_compute in (digit_value c) in
       change (digit_value c) with v end);
    lia.
Qed.

Lemma digits_value_decimal (n : N) : digits_value (decimal n) 0 = n.
Proof.
  unfold decimal.
  change 0%N with (DecimalPos.Unsigned.of_lu Decimal.Nil).
  rewrite digits_value_revapp.
  change (Decimal.revapp (N.to_uint n) Decimal.Nil) with (Decimal.rev (N.to_uint n)).
  rewrite <- DecimalPos.Unsigned.of_uint_alt.
  apply DecimalN.Unsigned.of_to.
Qed.

Lemma MAX_SAFE_INTEGER_eq : MAX_SAFE_INTEGER = 9007199254740991%N.
Proof. reflexivity. Qed.

Lemma to_double_safe (n : N) : (n <= MAX_SAFE_INTEGER)%N -> to_double n = Fin n.
Proof.
  rewrite MAX_SAFE_INTEGER_eq; unfold to_double; intros H.
  change (2 ^ 53)%N with 9007199254740992%N.
  destruct (N.ltb_spec n 9007199254740992); [reflexivity|lia].
Qed.

Lemma mul_Fin (x y : N) : mul (Fin x) (Fin y) = to_double (x * y).
Proof. destruct x, y; reflexivity. Qed.

Lemma parseInt10_decimal (n : N) :
  (n <= MAX_SAFE_INTEGER)%N -> parseInt10 (decimal n) = Fin n.
Proof.
  intros H; unfold parseInt10.
  pose proof (decimal_nonempty n) as Hne.
  pose proof (decimal_digits n) as Hd.
  pose proof (digits_value_decimal n) as Hv.
  destruct (decimal n) as [|c s]; [congruence|].
  simpl in Hd; apply andb_true_iff in Hd as [Hc _].
  now rewrite Hc, Hv, to_double_safe.
Qed.

Lemma timeRegex_match_shape (ds u : string) :
  ds <> EmptyString -> all_digits ds = true ->
  u = "ms" \/ u = "s" \/ u = "m" ->
  timeRegex_match (ds ++ u) = Some (ds, u).
Proof.
  intros Hne Hd Hu; unfold timeRegex_match.
  assert (span_digits (ds ++ u) = (ds, u)) as ->
    by (destruct Hu as [->|[->| ->]]; now apply span_digits_app).
  destruct ds; [congruence|].
  destruct Hu as [->|[->| ->]]; reflexivity.
Qed.

Lemma timeRegex_match_inv (s v u : string) :
  timeRegex_match s = Some (v, u) ->
  s = v ++ u /\ v <> EmptyString /\ all_digits v = true /\
  (u = "ms" \/ u = "s" \/ u = "m").
Proof.
  unfold timeRegex_match; intros H.
  destruct (span_digits s) as [ds rest] eqn:Hs.
  apply span_digits_sound in Hs as [-> Hd].
  destruct ds as [|c ds]; [discriminate|].
  destruct (String.eqb_spec rest "ms") as [->|_];
    [inversion H; subst; repeat split; auto; discriminate|].
  destruct (String.eqb_spec rest "s") as [->|_];
    [inversion H; subst; repeat split; auto; discriminate|].
  destruct (String.eqb_spec rest "m") as [->|_];
    [inversion H; subst; repeat split; auto; discriminate|].
  discriminate.
Qed.

Lemma parseTimeDuration_none_iff (s : string) :
  parseTimeDuration s = None <-> ~ duration_shape s.
Proof.
  unfold parseTimeDuration; split.
  - intros H (ds & u & -> & Hne & Hd & Hu).
    rewrite (timeRegex_match_shape _ _ Hne Hd Hu) in H.
    destruct Hu as [->|[->| ->]]; discriminate.
  - intros H.
    destruct (timeRegex_match s) as [[v u]|] eqn:Hm; [|reflexivity].
    exfalso; apply H.
    apply timeRegex_match_inv in Hm as (-> & Hne & Hd & Hu).
    now exists v, u.
Qed.

Lemma parseTimeDuration_digit_first (s : string) (d : jsnum) :
  parseTimeDuration s = Some d ->
  exists c s', s = String c s' /\ is_digit c = true.
Proof.
  intros H.
  destruct (timeRegex_match s) as [[v u]|] eqn:Hm;
    [|unfold parseTimeDuration in H; rewrite Hm in H; discriminate].
  apply timeRegex_match_inv in Hm as (-> & Hne & Hd & _).
  destruct v as [|c v]; [congruence|].
  simpl in Hd; apply andb_true_iff in Hd as [Hc _].
  now exists c, (v ++ u).
Qed.

(** ** Duration parser *)

Lemma not_shape_minus_5s : ~ duration_shape "-5s".
Proof.
  intros (ds & u & H & Hne & Hd & _).
  destruct ds as [|c ds]; [congruence|].
  simpl in H; inversion H; subst c.
  simpl in Hd; discriminate.
Qed.

(** C9, as amended: for every natural number [n] whose result stays within
    the exactly representable integers (at most [2^53 - 1]), the Duration
    Parser maps ["<n>ms"] to [n], ["<n>s"] to [n * 1000] and ["<n>m"] to
    [n * 60000]; for every string that is not of the shape
    [<integer><unit>] with a unit among [ms], [s], [m] it returns no match.
    The parser is a pure function, so it has no side effect. *)
Theorem parseTimeDuration_contract :
  (forall n : N, (n <= MAX_SAFE_INTEGER)%N ->
     parseTimeDuration (decimal n ++ "ms") = Some (Fin n)) /\
  (forall n : N, (n * 1000 <= MAX_SAFE_INTEGER)%N ->
     parseTimeDuration (decimal n ++ "s") = Some (Fin (n * 1000))) /\
  (forall n : N, (n * 60000 <= MAX_SAFE_INTEGER)%N ->
     parseTimeDuration (decimal n ++ "m") = Some (Fin (n * 60000))) /\
  (forall s : string, ~ duration_shape s -> parseTimeDuration s = None).
Proof.
  repeat split.
  - intros n Hn; unfold parseTimeDuration.
    rewrite timeRegex_match_shape
      by auto using decimal_nonempty, decimal_digits.
    cbn [String.eqb Ascii.eqb Bool.eqb].
    now rewrite parseInt10_decimal.
  - intros n Hn; unfold parseTimeDuration.
    rewrite timeRegex_match_shape
      by auto using decimal_nonempty, decimal_digits.
    change (String.eqb "s" "ms") with false;
      change (String.eqb "s" "s") with true; cbv iota.
    rewrite parseInt10_decimal by (rewrite MAX_SAFE_INTEGER_eq in *; lia).
    now rewrite mul_Fin, to_double_safe.
  - intros n Hn; unfold parseTimeDuration.
    rewrite timeRegex_match_shape
      by auto using decimal_nonempty, decimal_digits.
    change (String.eqb "m" "ms") with false;
      change (String.eqb "m" "s") with false;
      change (String.eqb "m" "m") with true; cbv iota.
    rewrite parseInt10_decimal by (rewrite MAX_SAFE_INTEGER_eq in *; lia).
    rewrite mul_Fin, to_double_safe by (rewrite MAX_SAFE_INTEGER_eq in *; lia).
    rewrite mul_Fin, to_double_safe by (rewrite MAX_SAFE_INTEGER_eq in *; lia).
    do 2 f_equal; lia.
  - intros s Hs; now apply parseTimeDuration_none_iff.
Qed.

Lemma parseTimeDuration_contract_witness :
  parseTimeDuration (decimal 250 ++ "ms") = Some (Fin 250) /\
  parseTimeDuration (decimal 2 ++ "s") = Some (Fin 2000) /\
  parseTimeDuration (decimal 3 ++ "m") = Some (Fin 180000) /\
  parseTimeDuration "-5s" = None.
Proof.
  destruct parseTimeDuration_contract as (Hms & Hs & Hm & Hnone).
  split; [|split; [|split]].
  - apply (Hms 250%N); vm_compute; discriminate.
  - apply (Hs 2%N); vm_compute; discriminate.
  - apply (Hm 3%N); vm_compute; discriminate.
  - apply (Hnone "-5s"); exact not_shape_minus_5s.
Defined.

(** C9, as stated, fails beyond the exactly representable integers: the
    numeral of [2^53 + 1] with unit [ms] is parsed to [2^53]. *)
Lemma parseTimeDuration_rounds_large_numerals :
  decimal 9007199254740993 = "9007199254740993" /\
  parseTimeDuration (decimal 9007199254740993 ++ "ms")
    = Some (Fin 9007199254740992) /\
  parseTimeDuration (decimal 9007199254740993 ++ "ms")
    <> Some (Fin 9007199254740993).
Proof.
  assert (parseTimeDuration (decimal 9007199254740993 ++ "ms")
          = Some (Fin 9007199254740992)) as H by (vm_compute; reflexivity).
  split; [vm_compute; reflexivity|split; [exact H|]].
  rewrite H; intros E; inversion E.
Qed.

(** ** Wait-directive parser *)

Lemma parseWaitParameter_time (r : string) :
  parseWaitParameter ("time:" ++ r) =
  match parseTimeDuration r with
  | Some d => Ok (WaitTime d)
  | None => Throw (ThrownError (invalid_time_format ("time:" ++ r)))
  end.
Proof.
  unfold parseWaitParameter.
  rewrite startsWith_app.
  change 5 with (String.length "time:"); rewrite slice_app.
  now destruct (parseTimeDuration r).
Qed.

Lemma parseWaitParameter_bare_duration (s : string) (d : jsnum) :
  parseTimeDuration s = Some d -> parseWaitParameter s = Ok (WaitTime d).
Proof.
  intros H.
  destruct (parseTimeDuration_digit_first _ _ H) as (c & s' & -> & Hc).
  unfold parseWaitParameter.
  assert (forall a p, is_digit a = false ->
            JsString.startsWith (String a p) (String c s') = false) as Hp.
  { intros a p Ha; simpl.
    destruct (Ascii.eqb_spec a c) as [->|_]; [congruence|reflexivity]. }
  rewrite !Hp by reflexivity.
  now rewrite H.
Qed.

Lemma parseWaitParameter_throw_inv (s : string) (e : thrown) :
  parseWaitParameter s = Throw e ->
  JsString.startsWith "time:" s = true /\
  parseTimeDuration (JsString.slice 5 s) = None /\
  e = ThrownError (invalid_time_format s).
Proof.
  unfold parseWaitParameter.
  destruct (JsString.startsWith "time:" s).
  - destruct (parseTimeDuration (JsString.slice 5 s)); [discriminate|].
    intros H; inversion H; auto.
  - destruct (_ || _); [discriminate|].
    destruct (parseTimeDuration s); [discriminate|].
    destruct (_ || _); discriminate.
Qed.

(** C4: the Wait-Directive Parser resolves a wait string in this order: a
    [time:] prefix gives the time directive of the Duration Parser on the
    remainder, or fails with the format error that names the string and the
    three accepted shapes; a [selector:] or [css:] prefix gives a selector
    directive with the text after the first colon, verbatim; a bare string
    that is a valid duration gives a time directive; any other string gives
    a selector directive with that exact string.  Only a [time:]-prefixed
    string with an invalid duration is rejected. *)
Theorem parseWaitParameter_priority :
  (forall r : string,
     parseWaitParameter ("time:" ++ r) =
     match parseTimeDuration r with
     | Some d => Ok (WaitTime d)
     | None =>
         Throw (ThrownError
                  ("Invalid time duration format: " ++ ("time:" ++ r)
                     ++ ". Expected format: time:Xs, time:Xms, or time:Xm"))
     end) /\
  (forall r : string, parseWaitParameter ("selector:" ++ r) = Ok (WaitSelector r)) /\
  (forall r : string, parseWaitParameter ("css:" ++ r) = Ok (WaitSelector r)) /\
  (forall (s : string) (d : jsnum),
     parseTimeDuration s = Some d -> parseWaitParameter s = Ok (WaitTime d)) /\
  (forall s : string,
     JsString.startsWith "time:" s = false ->
     JsString.startsWith "selector:" s = false ->
     JsString.startsWith "css:" s = false ->
     parseTimeDuration s = None ->
     parseWaitParameter s = Ok (WaitSelector s)) /\
  (forall (s : string) (e : thrown),
     parseWaitParameter s = Throw e ->
     exists r, s = "time:" ++ r /\ parseTimeDuration r = None).
Proof.
  split; [exact parseWaitParameter_time|].
  split; [reflexivity|].
  split; [reflexivity|].
  split; [exact parseWaitParameter_bare_duration|].
  split.
  - intros s Ht Hs Hc Hd; unfold parseWaitParameter.
    rewrite Ht, Hs, Hc, Hd; simpl.
    now destruct (_ || _).
  - intros s e H.
    apply parseWaitParameter_throw_inv in H as (Hp & Hd & _).
    exists (JsString.slice 5 s); split; [|exact Hd].
    now apply (startsWith_inv "time:").
Qed.

Lemma parseWaitParameter_priority_witness :
  parseWaitParameter "2s" = Ok (WaitTime (Fin 2000)) /\
  parseWaitParameter "#main" = Ok (WaitSelector "#main") /\
  parseWaitParameter "div.ready" = Ok (WaitSelector "div.ready") /\
  (exists r, "time:soon" = "time:" ++ r /\ parseTimeDuration r = None).
Proof.
  destruct parseWaitParameter_priority as (_ & _ & _ & Hbare & Hsel & Hrej).
  split; [|split; [|split]].
  - apply (Hbare "2s"); vm_compute; reflexivity.
  - apply (Hsel "#main"); vm_compute; reflexivity.
  - apply (Hsel "div.ready"); vm_compute; reflexivity.
  - apply (Hrej "time:soon" (ThrownError (invalid_time_format "time:soon")));
      vm_compute; reflexivity.
Defined.

(** ** The trace monad *)

Open Scope list_scope.

Lemma bind_ok {A B} (c : M A) (k : A -> M B) (s : locals) (a : A) :
  res (c s) = Ok a -> bind c k s = prepend (trace (c s)) (k a (final (c s))).
Proof. unfold bind; intros ->; reflexivity. Qed.

Lemma bind_trace_prefix {A B} (c : M A) (k : A -> M B) (s : locals) :
  exists t, trace (bind c k s) = trace (c s) ++ t.
Proof.
  unfold bind; destruct (res (c s)); simpl.
  - eexists; reflexivity.
  - exists []; now rewrite app_nil_r.
Qed.

Lemma bind_in_l {A B} (c : M A) (k : A -> M B) (s : locals) (e : event) :
  In e (trace (c s)) -> In e (trace (bind c k s)).
Proof.
  intros H; destruct (bind_trace_prefix c k s) as [t ->].
  apply in_or_app; now left.
Qed.

Lemma bind_in_r {A B} (c : M A) (k : A -> M B) (s : locals) (a : A) (e : event) :
  res (c s) = Ok a -> In e (trace (k a (final (c s)))) -> In e (trace (bind c k s)).
Proof.
  intros H Hin; rewrite (bind_ok _ _ _ _ H); simpl.
  apply in_or_app; now right.
Qed.

Lemma bind_assoc {A B C} (c : M A) (k : A -> M B) (k' : B -> M C) (s : locals) :
  bind (bind c k) k' s = bind c (fun a => bind (k a) k') s.
Proof.
  unfold bind.
  destruct (c s) as [t1 s1 [a|e]]; simpl; [|reflexivity].
  destruct (k a s1) as [t2 s2 [b|e]]; simpl; [|reflexivity].
  now rewrite app_assoc.
Qed.

Lemma bind_ext {A B} (c : M A) (k k' : A -> M B) (s : locals) :
  (forall a s', k a s' = k' a s') -> bind c k s = bind c k' s.
Proof. unfold bind; intros H; destruct (res (c s)); [now rewrite H|reflexivity]. Qed.

Lemma try_catch_bind_ok {A B} (c : M A) (k : A -> M B) (h : thrown -> M B)
      (s : locals) (a : A) :
  res (c s) = Ok a ->
  try_catch (bind c k) h s = prepend (trace (c s)) (try_catch (k a) h (final (c s))).
Proof.
  intros H; unfold try_catch, bind, prepend; rewrite H; simpl.
  destruct (k a (final (c s))) as [t2 s2 [b|e]]; simpl; [reflexivity|].
  now rewrite app_assoc.
Qed.

Lemma try_finally_prepend {A} (c c' : M A) (f : M unit) (s s' : locals)
      (t : list event) :
  c s = prepend t (c' s') ->
  try_finally c f s = prepend t (try_finally c' f s').
Proof.
  intros H; unfold try_finally; rewrite H; unfold prepend; simpl.
  now rewrite app_assoc.
Qed.

Lemma yields_app (t t' : list event) : yields (t ++ t') = yields t ++ yields t'.
Proof. apply flat_map_app. Qed.

(** ** Rules for invariants *)

Section Rules.

Context {Pre I : locals -> Prop} {P : event -> Prop}.

Lemma triple_ret {A} (a : A) : triple I I P (ret a).
Proof. intros s H; split; [exact H|constructor]. Qed.

Lemma triple_throw {A} (e : thrown) : triple I I P (@throw A e).
Proof. intros s H; split; [exact H|constructor]. Qed.

Lemma triple_yield (m : message) : P (Yield m) -> triple I I P (yield m).
Proof. intros Hm s H; split; [exact H|repeat constructor; exact Hm]. Qed.

Lemma triple_await {A} (c : call) (r : result A) :
  P (Call c) -> triple I I P (await c r).
Proof. intros Hc s H; split; [exact H|repeat constructor; exact Hc]. Qed.

Lemma triple_modify (f : locals -> locals) :
  (forall s, I s -> I (f s)) -> triple I I P (modify f).
Proof. intros Hf s H; split; [now apply Hf|constructor]. Qed.

Lemma triple_bind {A B} (c : M A) (k : A -> M B) :
  triple Pre I P c -> (forall a, triple I I P (k a)) -> triple Pre I P (bind c k).
Proof.
  intros Hc Hk s H; unfold bind.
  destruct (Hc s H) as [Hi Ht].
  destruct (res (c s)) as [a|e]; simpl; [|now split].
  destruct (Hk a _ Hi) as [Hi' Ht'].
  split; [exact Hi'|now apply Forall_app].
Qed.

Lemma triple_get {A} (k : locals -> M A) :
  (forall s0, I s0 -> triple I I P (k s0)) -> triple I I P (bind get k).
Proof.
  intros Hk s H; unfold bind, get; simpl.
  exact (Hk s H s H).
Qed.

Lemma triple_try_catch {A} (c : M A) (h : thrown -> M A) :
  triple Pre I P c -> (forall e, triple I I P (h e)) ->
  triple Pre I P (try_catch c h).
Proof.
  intros Hc Hh s H; unfold try_catch.
  destruct (Hc s H) as [Hi Ht].
  destruct (res (c s)) as [a|e]; simpl; [now split|].
  destruct (Hh e _ Hi) as [Hi' Ht'].
  split; [exact Hi'|now apply Forall_app].
Qed.

Lemma triple_try_finally {A} (c : M A) (f : M unit) :
  triple Pre I P c -> triple I I P f -> triple Pre I P (try_finally c f).
Proof.
  intros Hc Hf s H; unfold try_finally; simpl.
  destruct (Hc s H) as [Hi Ht].
  destruct (Hf _ Hi) as [Hi' Ht'].
  split; [exact Hi'|now apply Forall_app].
Qed.

Lemma triple_for_of {A} (l : list A) (body : A -> M unit) :
  (forall x, triple I I P (body x)) -> triple I I P (for_of l body).
Proof.
  intros Hb; induction l as [|x l IH]; simpl.
  - intros s H; split; [exact H|constructor].
  - intros s H; unfold bind.
    destruct (Hb x s H) as [Hi Ht].
    destruct (res (body x s)); simpl; [|now split].
    destruct (IH _ Hi) as [Hi' Ht'].
    split; [exact Hi'|now apply Forall_app].
Qed.

Lemma triple_when (b : bool) (c : M unit) :
  triple I I P c -> triple I I P (when b c).
Proof.
  intros Hc; destruct b; [exact Hc|].
  intros s H; split; [exact H|constructor].
Qed.

Lemma triple_debug_log (options : OpenCommandOptions) (l : log_line) :
  P (Call (ConsoleLog l)) -> triple I I P (debug_log options l).
Proof. intros Hl; apply triple_when, triple_await, Hl. Qed.

End Rules.

(** one step of a proof that a computation keeps an invariant *)
Ltac triple_step :=
  lazymatch goal with
  | |- triple _ _ _ (bind get _) => apply triple_get; intros ? ?
  | |- triple _ _ _ (bind _ _) => apply triple_bind; [|intros ?]
  | |- triple _ _ _ (ret _) => apply triple_ret
  | |- triple _ _ _ (throw _) => apply triple_throw
  | |- triple _ _ _ (yield _) => apply triple_yield
  | |- triple _ _ _ (await _ _) => apply triple_await
  | |- triple _ _ _ (perform _) => apply triple_await
  | |- triple _ _ _ (modify _) => apply triple_modify
  | |- triple _ _ _ (try_catch _ _) => apply triple_try_catch; [|intros ?]
  | |- triple _ _ _ (try_finally _ _) => apply triple_try_finally
  | |- triple _ _ _ (for_of _ _) => apply triple_for_of; intros ?
  | |- triple _ _ _ (when _ _) => apply triple_when
  | |- triple _ _ _ (debug_log _ _) => apply triple_debug_log
  | |- triple _ _ _ (match ?x with _ => _ end) => destruct x eqn:?
  end.

Ltac triple_auto := repeat triple_step.

(** ** Progress items of a successful computation *)

Lemma yields_bind {A B} (c : M A) (k : A -> M B) (ys ys' : list message) :
  yields_on_success c ys -> (forall a, yields_on_success (k a) ys') ->
  yields_on_success (bind c k) (ys ++ ys').
Proof.
  intros Hc Hk s x; unfold bind.
  destruct (res (c s)) as [a|e] eqn:Ha; cbn [res trace]; [|discriminate].
  intros Hx; rewrite yields_app.
  now rewrite (Hc s a Ha), (Hk a _ x Hx).
Qed.

Lemma yields_ret {A} (a : A) : yields_on_success (ret a) [].
Proof. now intros s x _. Qed.

Lemma yields_yield (m : message) : yields_on_success (yield m) [m].
Proof. now intros s x _. Qed.

Lemma yields_await {A} (c : call) (r : result A) : yields_on_success (await c r) [].
Proof. now intros s x _. Qed.

Lemma yields_get : yields_on_success get [].
Proof. now intros s x _. Qed.

Lemma yields_modify (f : locals -> locals) : yields_on_success (modify f) [].
Proof. now intros s x _. Qed.

Lemma yields_when_perform (b : bool) (c : call) :
  yields_on_success (when b (perform c)) [].
Proof. destruct b; now intros s x _. Qed.

Lemma yields_debug_log (options : OpenCommandOptions) (l : log_line) :
  yields_on_success (debug_log options l) [].
Proof. apply yields_when_perform. Qed.

Lemma yields_eq {A} (c : M A) (ys ys' : list message) :
  yields_on_success c ys -> ys = ys' -> yields_on_success c ys'.
Proof. now intros H <-. Qed.

Ltac yields_step :=
  lazymatch goal with
  | |- yields_on_success (bind _ _) _ => eapply yields_bind; [|intros ?]
  | |- yields_on_success (ret _) _ => apply yields_ret
  | |- yields_on_success (yield _) _ => apply yields_yield
  | |- yields_on_success (await _ _) _ => apply yields_await
  | |- yields_on_success get _ => apply yields_get
  | |- yields_on_success (modify _) _ => apply yields_modify
  | |- yields_on_success (debug_log _ _) _ => apply yields_debug_log
  | |- yields_on_success (when _ (perform _)) _ => apply yields_when_perform
  end.

(** ** Decomposition of a run *)

Section Decomposition.

Variable env : Env.

Lemma protected_bind_ok {A} (options : OpenCommandOptions) (c : M A)
      (k : A -> M unit) (s : locals) (a : A) :
  res (c s) = Ok a ->
  protected env options (bind c k) s
  = prepend (trace (c s)) (protected env options (k a) (final (c s))).
Proof.
  intros H; unfold protected.
  apply try_finally_prepend.
  now apply try_catch_bind_ok.
Qed.

Lemma protected_ext (options : OpenCommandOptions) (c c' : M unit) (s : locals) :
  c s = c' s -> protected env options c s = protected env options c' s.
Proof. unfold protected, try_finally, try_catch; now intros ->. Qed.

Lemma operation_attached (options : OpenCommandOptions) (url : string) (s : locals) :
  operation env options url s
  = bind (attached env options url)
         (fun p => navigate env options url p ;; after_navigation env options p) s.
Proof.
  unfold operation, attached.
  rewrite bind_assoc; apply bind_ext; intros p s1.
  rewrite bind_assoc; apply bind_ext; intros [] s2.
  unfold bind at 2, ret; simpl.
  now destruct (bind _ _ s2).
Qed.

Lemma operation_settled (options : OpenCommandOptions) (url : string) (s : locals) :
  operation env options url s
  = bind (settled env options url) (after_navigation env options) s.
Proof.
  rewrite operation_attached; unfold settled.
  rewrite bind_assoc; apply bind_ext; intros p s1.
  rewrite bind_assoc; apply bind_ext; intros [] s2.
  unfold bind, ret; simpl.
  now destruct (after_navigation env options p s2).
Qed.

Lemma with_url_connect (query : string) (options : OpenCommandOptions) :
  is_connect (with_url query options) = is_connect options /\
  video (with_url query options) = video options.
Proof. unfold with_url; now destruct (_ && _). Qed.

Lemma guarded_admitted (query : string) (options options' : OpenCommandOptions)
      (url : string) (s : locals) :
  admitted env query options options' url ->
  guarded env query options s
  = prepend preflight (protected env options' (operation env options' url) s).
Proof.
  intros (Hp & Hb & Hu & Ht & Hc & ->).
  destruct (with_url_connect query options) as [Hic Hv].
  unfold guarded, bind, await; simpl.
  rewrite Hp; simpl; rewrite Hb; simpl.
  rewrite Hu, Ht, Hic, Hv, Hc.
  reflexivity.
Qed.

(** a request that passes preflight and validation runs the protected
    operation, and nothing else *)
Lemma run_admitted (query : string) (options options' : OpenCommandOptions)
      (url : string) :
  admitted env query options options' url ->
  let body := protected env options' (operation env options' url) initial in
  run env query options = preflight ++ trace body ++ report_failure body.
Proof.
  intros Ha; cbv zeta.
  unfold run, execute, try_catch.
  rewrite (guarded_admitted _ _ _ _ _ Ha).
  generalize (protected env options' (operation env options' url) initial).
  intros [t s [a|e]]; unfold report_failure, prepend; simpl;
    [now rewrite app_nil_r|reflexivity].
Qed.

Lemma run_attached (query : string) (options options' : OpenCommandOptions)
      (url : string) (p : Page) :
  admitted env query options options' url ->
  res (attached env options' url initial) = Ok p ->
  let before := attached env options' url initial in
  let rest :=
    protected env options'
      (navigate env options' url p ;; after_navigation env options' p)
      (final before) in
  run env query options
  = preflight ++ trace before ++ trace rest ++ report_failure rest.
Proof.
  intros Ha Hr before rest.
  rewrite (run_admitted _ _ _ _ Ha).
  rewrite (protected_ext _ _ _ _ (operation_attached _ _ _)).
  rewrite (protected_bind_ok _ _ _ _ _ Hr).
  unfold prepend, report_failure; simpl.
  now rewrite <- app_assoc.
Qed.

Lemma run_settled (query : string) (options options' : OpenCommandOptions)
      (url : string) (p : Page) :
  admitted env query options options' url ->
  res (settled env options' url initial) = Ok p ->
  let before := settled env options' url initial in
  let rest := protected env options' (after_navigation env options' p) (final before) in
  run env query options
  = preflight ++ trace before ++ trace rest ++ report_failure rest.
Proof.
  intros Ha Hr before rest.
  rewrite (run_admitted _ _ _ _ Ha).
  rewrite (protected_ext _ _ _ _ (operation_settled _ _ _)).
  rewrite (protected_bind_ok _ _ _ _ _ Hr).
  unfold prepend, report_failure; simpl.
  now rewrite <- app_assoc.
Qed.

End Decomposition.

(** ** Steps that cannot fail *)

Section Steps.

Variable env : Env.

Lemma debug_log_outcome (options : OpenCommandOptions) (l : log_line) (s : locals) :
  debug_log options l s
  = {| trace := if truthy_bool (debug options) then [Call (ConsoleLog l)] else [];
       final := s; res := Ok tt |}.
Proof. unfold debug_log, when; now destruct (truthy_bool _). Qed.

Lemma debug_log_res (options : OpenCommandOptions) (l : log_line) (s : locals) :
  res (debug_log options l s) = Ok tt.
Proof. now rewrite debug_log_outcome. Qed.

Lemma debug_log_final (options : OpenCommandOptions) (l : log_line) (s : locals) :
  final (debug_log options l s) = s.
Proof. now rewrite debug_log_outcome. Qed.

Lemma for_of_yield (l : list string) (s : locals) :
  for_of l (fun m => yield (Diagnostic m)) s
  = {| trace := map (fun m => Yield (Diagnostic m)) l; final := s; res := Ok tt |}.
Proof.
  induction l as [|m l IH]; [reflexivity|].
  simpl; unfold bind; simpl; now rewrite IH.
Qed.

Lemma for_of_clear (l : list Timeout) (s : locals) :
  for_of l (fun t => perform (CallClearTimeout t)) s
  = {| trace := map (fun t => Call (CallClearTimeout t)) l; final := s; res := Ok tt |}.
Proof.
  induction l as [|m l IH]; [reflexivity|].
  simpl; unfold bind; simpl; now rewrite IH.
Qed.

Lemma clear_timeouts_outcome (s : locals) :
  clear_timeouts s
  = {| trace := map (fun t => Call (CallClearTimeout t)) (timeouts s);
       final := set_timeouts [] s; res := Ok tt |}.
Proof.
  unfold clear_timeouts, bind, get, modify; simpl.
  rewrite for_of_clear; simpl; now rewrite app_nil_r.
Qed.

Lemma with_defaults_connect (options : OpenCommandOptions) :
  is_connect (with_defaults options) = is_connect options.
Proof. reflexivity. Qed.


End Steps.

Section Idle.

Variables (env : Env) (r : result unit) (options : OpenCommandOptions).







End Idle.


(** ** Quiescence *)



(** ** The wait directive *)

Section WaitDirective.

Variable env : Env.

Lemma wait_for_failure (options : OpenCommandOptions) (p : Page) (s : locals)
      (w : string) (e : thrown) :
  wait options = Some w -> JsString.truthy w = true ->
  parseWaitParameter w = Throw e \/
  (exists sel, parseWaitParameter w = Ok (WaitSelector sel) /\
               waitForSelector env = Throw e) ->
  wait_for env options p s
  = {| trace := wait_attempt env options p w ++ [Yield (WaitError (error_message e))];
       final := s; res := Ok tt |}.
Proof.
  intros Hw Ht H; unfold wait_for, wait_attempt; rewrite Hw, Ht; simpl.
  destruct H as [H|(sel & H & Hs)]; rewrite H; unfold try_catch; simpl.
  - reflexivity.
  - unfold bind, perform, await; simpl; rewrite Hs; reflexivity.
Qed.

Lemma protected_trace_prefix (options : OpenCommandOptions) (c : M unit) (s : locals) :
  exists t, trace (protected env options c s) = trace (c s) ++ t.
Proof.
  unfold protected, try_finally, try_catch.
  destruct (c s) as [t1 s1 [[]|e]]; simpl.
  - eexists; reflexivity.
  - rewrite <- app_assoc; eexists; reflexivity.
Qed.

Lemma report_diagnostics (options : OpenCommandOptions) (p : Page) (s : locals)
      (m : string) :
  In m (outputMessages env (consoleMessages s) (networkMessages s) options) ->
  In (Yield (Diagnostic m)) (trace (report env options p s)).
Proof.
  intros H; unfold report, bind at 1, get; simpl.
  unfold bind at 1; rewrite for_of_yield; simpl.
  apply in_or_app; left.
  now apply (in_map (fun m => Yield (Diagnostic m))).
Qed.

Lemma report_markup (options : OpenCommandOptions) (p : Page) (s : locals) :
  html options = Some true ->
  In (Call (CallContent p)) (trace (report env options p s)).
Proof.
  intros H; unfold report, bind at 1, get; simpl.
  unfold bind at 1; rewrite for_of_yield; simpl.
  apply in_or_app; right.
  rewrite H; unfold bind, await; simpl.
  destruct (content env); simpl; auto.
Qed.

Lemma report_screenshot (options : OpenCommandOptions) (p : Page) (s : locals) :
  html options <> Some true \/ (exists c, content env = Ok c) ->
  In (Call (CallCaptureScreenshot p)) (trace (report env options p s)).
Proof.
  intros H; unfold report, bind at 1, get; simpl.
  unfold bind at 1; rewrite for_of_yield; simpl.
  apply in_or_app; right.
  assert (forall s', In (Call (CallCaptureScreenshot p))
            (trace ((debug_log options DebugTakingScreenshot ;;
                     await (CallCaptureScreenshot p) (captureScreenshot env) ;;
                     match screenshot options with
                     | Some path =>
                         when (JsString.truthy path) (yield (ScreenshotSaved path))
                     | None => ret tt
                     end) s'))) as Hshot.
  { intros s'; unfold bind at 1; rewrite debug_log_outcome; simpl.
    apply in_or_app; right.
    unfold bind, await; simpl.
    destruct (captureScreenshot env); simpl; auto. }
  destruct (html options) as [[|]|] eqn:Hh.
  - destruct H as [H|[c Hc]]; [congruence|].
    unfold bind at 1, await; simpl; rewrite Hc; simpl.
    right; do 3 right.
    apply (Hshot s).
  - unfold bind at 1, ret; simpl; apply Hshot.
  - unfold bind at 1, ret; simpl; apply Hshot.
Qed.

Lemma after_wait_failure (options : OpenCommandOptions) (p : Page) (s : locals)
      (w : string) (e : thrown) :
  wait options = Some w -> JsString.truthy w = true ->
  parseWaitParameter w = Throw e \/
  (exists sel, parseWaitParameter w = Ok (WaitSelector sel) /\
               waitForSelector env = Throw e) ->
  protected env options (after_navigation env options p) s
  = prepend (wait_attempt env options p w ++ [Yield (WaitError (error_message e))])
            (protected env options (clear_timeouts ;; report env options p) s).
Proof.
  intros Hw Ht Hf.
  pose proof (wait_for_failure options p s w e Hw Ht Hf) as Hwf.
  unfold after_navigation.
  rewrite (protected_bind_ok env options _ _ _ tt) by (now rewrite Hwf).
  now rewrite Hwf.
Qed.

Lemma protected_rest_trace (options : OpenCommandOptions) (p : Page) (s : locals) :
  exists t,
    trace (protected env options (clear_timeouts ;; report env options p) s)
    = map (fun t => Call (CallClearTimeout t)) (timeouts s)
        ++ trace (report env options p (set_timeouts [] s)) ++ t.
Proof.
  destruct (protected_trace_prefix options
              (clear_timeouts ;; report env options p) s) as [t ->].
  unfold bind; rewrite clear_timeouts_outcome; simpl.
  rewrite <- app_assoc; eexists; reflexivity.
Qed.

End WaitDirective.

(** C8: when the wait directive of a run fails (it is malformed, or its
    selector does not become visible in time), the failure is reported by a
    [WaitError] item and the remaining steps still run: pending timers are
    cleared, the diagnostics are emitted, the markup is captured when it is
    enabled, the screenshot is captured, and cleanup follows. *)
Theorem wait_failure_not_fatal
        (env : Env) (query : string) (options options' : OpenCommandOptions)
        (url : string) (p : Page) (w : string) (e : thrown) :
  admitted env query options options' url ->
  res (settled env options' url initial) = Ok p ->
  wait options' = Some w -> JsString.truthy w = true ->
  parseWaitParameter w = Throw e \/
  (exists sel, parseWaitParameter w = Ok (WaitSelector sel) /\
               waitForSelector env = Throw e) ->
  let before := settled env options' url initial in
  let s := final before in
  let rest := protected env options' (clear_timeouts ;; report env options' p) s in
  run env query options
  = preflight ++ trace before ++ wait_attempt env options' p w
      ++ [Yield (WaitError (error_message e))]
      ++ trace rest ++ report_failure rest /\
  (forall m,
     In m (outputMessages env (consoleMessages s) (networkMessages s) options') ->
     In (Yield (Diagnostic m)) (trace rest)) /\
  (html options' = Some true -> In (Call (CallContent p)) (trace rest)) /\
  (html options' <> Some true \/ (exists c, content env = Ok c) ->
   In (Call (CallCaptureScreenshot p)) (trace rest)).
Proof.
  intros Ha Hp Hw Ht Hf; cbv zeta.
  rewrite (run_settled _ _ _ _ _ _ Ha Hp); cbv zeta.
  generalize (trace (settled env options' url initial)) as t0.
  generalize (final (settled env options' url initial)) as s.
  intros s t0.
  rewrite (after_wait_failure env options' p s w e Hw Ht Hf).
  destruct (protected_rest_trace env options' p s) as [t Hrest].
  split; [|split; [|split]].
  - unfold prepend, report_failure; cbn [trace final res].
    repeat rewrite <- app_assoc; reflexivity.
  - intros m Hm; rewrite Hrest.
    apply in_or_app; right; apply in_or_app; left.
    now apply report_diagnostics.
  - intros Hh; rewrite Hrest.
    apply in_or_app; right; apply in_or_app; left.
    now apply report_markup.
  - intros Hh; rewrite Hrest.
    apply in_or_app; right; apply in_or_app; left.
    now apply report_screenshot.
Qed.

Lemma wait_failure_not_fatal_witness :
  admitted Scenario.hidden_element ""
           (Scenario.request "https://example.com" None (Some "#late"))
           (with_defaults (Scenario.request "https://example.com" None (Some "#late")))
           "https://example.com" /\
  yields (run Scenario.hidden_element ""
              (Scenario.request "https://example.com" None (Some "#late")))
  = [LaunchingBrowser; NavigatingTo "https://example.com"; PageLoaded;
     WaitError "Timeout 30000ms exceeded."; BrowserClosed].
Proof.
  assert (admitted Scenario.hidden_element ""
            (Scenario.request "https://example.com" None (Some "#late"))
            (with_defaults (Scenario.request "https://example.com" None (Some "#late")))
            "https://example.com") as Ha by (repeat split).
  split; [exact Ha|].
  destruct (wait_failure_not_fatal
              Scenario.hidden_element "" _ _ _ Scenario.blank "#late"
              Scenario.idle_timeout Ha eq_refl eq_refl eq_refl
              (or_intror (ex_intro _ "#late" (conj eq_refl eq_refl))))
    as [H _].
  rewrite H; reflexivity.
Defined.

(** ** Sentinel addresses without a connection *)

(** C10: in launch mode (no connect port) the target locators [current] and
    [reload-current] are not special: the request passes validation and the
    sequencer announces and attempts a goto-navigation to the literal
    string. *)
Theorem sentinel_in_launch_mode_is_an_address
        (env : Env) (query : string) (options : OpenCommandOptions)
        (target : string) (p : Page) :
  ensurePlaywright env = Ok tt ->
  ensurePlaywrightBrowsers env = Ok tt ->
  url (with_url query options) = Some target ->
  target = "current" \/ target = "reload-current" ->
  is_connect options = false ->
  let options' := with_defaults (with_url query options) in
  res (attached env options' target initial) = Ok p ->
  exists post,
    run env query options
    = preflight ++ trace (attached env options' target initial)
        ++ Yield (NavigatingTo target)
        :: Call (CallGoto p target (effective_timeout env options'))
        :: post.
Proof.
  intros Hp Hb Hu Ht Hc options' Ha.
  assert (is_connect options' = false) as Hc'.
  { unfold options'; rewrite with_defaults_connect.
    now rewrite (proj1 (with_url_connect query options)). }
  assert (admitted env query options options' target) as Hadm.
  { repeat split; auto.
    - destruct Ht as [->| ->]; reflexivity.
    - now rewrite Hc. }
  rewrite (run_attached _ _ _ _ _ _ Hadm Ha); cbv zeta.
  generalize (final (attached env options' target initial)) as s; intros s.
  generalize (trace (attached env options' target initial)) as t0; intros t0.
  destruct (protected_trace_prefix env options'
              (navigate env options' target p ;; after_navigation env options' p) s)
    as [t ->].
  assert (exists t', trace ((navigate env options' target p ;;
                             after_navigation env options' p) s)
                     = Yield (NavigatingTo target)
                       :: Call (CallGoto p target (effective_timeout env options'))
                       :: t') as [t' ->].
  { unfold navigate; rewrite Hc', !andb_false_r.
    destruct (bind_trace_prefix
                (yield (NavigatingTo target) ;;
                 await (CallGoto p target (effective_timeout env options')) (goto env) ;;
                 yield PageLoaded ;;
                 try_catch
                   (await (CallWaitForLoadState p (effective_timeout env options'))
                          (waitForLoadState env))
                   (fun error =>
                      debug_log options' (DebugNetworkIdleError error) ;;
                      yield NetworkIdleTimedOut) ;;
                 debug_log options' (DebugNavigated target))
                (fun _ => after_navigation env options' p) s) as [t1 ->].
    rewrite bind_ok with (a := tt) by reflexivity.
    unfold prepend; cbn [trace final yield].
    destruct (bind_trace_prefix
                (await (CallGoto p target (effective_timeout env options')) (goto env))
                (fun _ =>
                   yield PageLoaded ;;
                   try_catch
                     (await (CallWaitForLoadState p (effective_timeout env options'))
                            (waitForLoadState env))
                     (fun error =>
                        debug_log options' (DebugNetworkIdleError error) ;;
                        yield NetworkIdleTimedOut) ;;
                   debug_log options' (DebugNavigated target)) s) as [t2 ->].
    cbn [trace await app]; eexists; reflexivity. }
  eexists; simpl; repeat rewrite <- app_assoc; simpl; reflexivity.
Qed.

Lemma sentinel_in_launch_mode_is_an_address_witness :
  is_connect (Scenario.request "current" None None) = false /\
  exists post,
    run Scenario.healthy "" (Scenario.request "current" None None)
    = preflight
        ++ trace (attached Scenario.healthy
                    (with_defaults (Scenario.request "current" None None))
                    "current" initial)
        ++ Yield (NavigatingTo "current")
        :: Call (CallGoto Scenario.blank "current" 30000)
        :: post.
Proof.
  split; [reflexivity|].
  exact (sentinel_in_launch_mode_is_an_address
           Scenario.healthy "" (Scenario.request "current" None None)
           "current" Scenario.blank
           eq_refl eq_refl eq_refl (or_introl eq_refl) eq_refl eq_refl).
Defined.

(** ** Validation of conflicting options *)

Lemma guarded_conflict (env : Env) (query : string) (options : OpenCommandOptions)
      (s : locals) :
  is_connect options = true -> truthy_string (video options) = true ->
  guarded env query options s =
  match ensurePlaywright env with
  | Throw e => {| trace := [Call CallEnsurePlaywright]; final := s; res := Throw e |}
  | Ok _ =>
      match ensurePlaywrightBrowsers env with
      | Throw e => {| trace := preflight; final := s; res := Throw e |}
      | Ok _ =>
          if truthy_string (url (with_url query options)) then
            {| trace := preflight; final := s;
               res := Throw (ThrownError video_conflict) |}
          else
            {| trace := preflight ++ [Yield ProvideUrl]; final := s; res := Ok tt |}
      end
  end.
Proof.
  intros Hc Hv.
  destruct (with_url_connect query options) as [Hic Hvi].
  unfold guarded, bind, await; simpl.
  destruct (ensurePlaywright env); simpl; [|reflexivity].
  destruct (ensurePlaywrightBrowsers env); simpl; [|reflexivity].
  rewrite Hic, Hvi, Hc, Hv; simpl.
  destruct (url (with_url query options)) as [u|]; simpl; [|reflexivity].
  destruct (JsString.truthy u); reflexivity.
Qed.

(** C6: a request with both a connect port and video capture fails
    validation before any session is acquired: a run of such a request makes
    no call but the two preflight checks and emits nothing but one report
    (no connection, launch, navigation, diagnostics or capture), and once
    the preflight checks pass for a request with a target locator, the
    validation error is the only item emitted. *)
Theorem conflicting_options_rejected
        (env : Env) (query : string) (options : OpenCommandOptions) :
  is_connect options = true ->
  truthy_string (video options) = true ->
  (forall e, In e (run env query options) ->
             In e preflight \/
             (exists msg, e = Yield (PlaywrightCheckError msg)) \/
             e = Yield ProvideUrl) /\
  (ensurePlaywright env = Ok tt ->
   ensurePlaywrightBrowsers env = Ok tt ->
   truthy_string (url (with_url query options)) = true ->
   run env query options
   = preflight ++ [Yield (PlaywrightCheckError video_conflict)]).
Proof.
  intros Hc Hv; unfold run, execute, try_catch.
  rewrite (guarded_conflict env query options initial Hc Hv).
  split.
  - intros ev.
    destruct (ensurePlaywright env); simpl;
      [destruct (ensurePlaywrightBrowsers env); simpl;
       [destruct (truthy_string (url (with_url query options))); simpl|]|];
      intros H;
      repeat (destruct H as [H|H]; [subst ev; eauto 6|]); contradiction.
  - intros -> -> ->; reflexivity.
Qed.

Lemma conflicting_options_rejected_witness :
  run Scenario.healthy ""
      {| url := Some "https://example.com"; connectTo := Some 9222%N;
         video := Some "recordings"; html := None; network := None;
         console := None; viewport := None; headless := None; timeout := None;
         wait := None; screenshot := None; debug := None |}
  = preflight ++ [Yield (PlaywrightCheckError video_conflict)].
Proof.
  apply (conflicting_options_rejected Scenario.healthy ""); reflexivity.
Defined.

(** ** Page selection when connecting *)








(** ** Pending timers *)

Lemma wait_for_timeouts (env : Env) (options : OpenCommandOptions) (p : Page) :
  forall ts, triple (fun s => timeouts s = ts) (fun s => timeouts s = ts)
                    (fun e => forall t, e <> Call (CallClearTimeout t))
                    (wait_for env options p).
Proof.
  intros ts; unfold wait_for.
  triple_auto; auto; discriminate.
Qed.

(** no timer is ever registered: at the end of every run the pending-timer
    set is empty, and no run cancels a timer *)
Lemma pending_timers_never_registered
      (env : Env) (query : string) (options : OpenCommandOptions) :
  timeouts (final (execute env query options)) = [] /\
  forall t, ~ In (Call (CallClearTimeout t)) (run env query options).
Proof.
  assert (triple (fun s => timeouts s = []) (fun s => timeouts s = [])
                 (fun e => forall t, e <> Call (CallClearTimeout t))
                 clear_timeouts) as Hclear.
  { unfold clear_timeouts; apply triple_get; intros s0 Hs0; rewrite Hs0.
    cbn [for_of]; triple_auto; auto. }
  assert (triple (fun s => timeouts s = []) (fun s => timeouts s = [])
                 (fun e => forall t, e <> Call (CallClearTimeout t))
                 (try_catch (guarded env query options)
                    (fun error => yield (PlaywrightCheckError (error_message error)))))
    as H.
  { unfold guarded, protected, operation, acquire, acquire_connect, acquire_launch,
      outfit, monitor, navigate, after_navigation, wait_for, report, report_error,
      cleanup, finalize_video, close_browser.
    repeat first [exact Hclear | triple_step]; auto; discriminate. }
  destruct (H initial eq_refl) as [Hf Ht]; split; [exact Hf|].
  intros t Hin; rewrite Forall_forall in Ht.
  now apply (Ht _ Hin t).
Qed.

(** C3, on the code: for the request [{url: "https://example.com", wait:
    "time:2s"}] in launch mode the timed wait schedules a timer of 2000 ms
    and resumes when it fires, but the pending-timer set is left as it was,
    empty: the timer is never registered, and no timer is ever cancelled
    during the run. *)
Theorem timed_wait_registers_no_timer :
  let options := Scenario.request "https://example.com" None (Some "time:2s") in
  let waited := wait_for Scenario.healthy (with_defaults options) Scenario.blank initial in
  trace waited
  = [Call (ConsoleLog (LogWaiting (WaitTime (Fin 2000))));
     Call (CallSetTimeout (Fin 2000)); Call TimerFired] /\
  timeouts initial = [] /\
  timeouts (final waited) = [] /\
  In (Call (CallSetTimeout (Fin 2000))) (run Scenario.healthy "" options) /\
  (forall t, ~ In (Call (CallClearTimeout t)) (run Scenario.healthy "" options)) /\
  timeouts (final (execute Scenario.healthy "" options)) = [].
Proof.
  cbv zeta.
  split; [vm_compute; reflexivity|].
  split; [reflexivity|].
  split; [vm_compute; reflexivity|].
  assert (run Scenario.healthy ""
              (Scenario.request "https://example.com" None (Some "time:2s"))
          = [Call CallEnsurePlaywright; Call CallEnsurePlaywrightBrowsers;
             Yield LaunchingBrowser; Call (CallLaunch true);
             Call CallSetupVideoRecording; Call (CallNewContext None);
             Call CallNewPage;
             Call (CallSetupConsoleLogging Scenario.blank);
             Call (CallSetupNetworkMonitoring Scenario.blank);
             Yield (NavigatingTo "https://example.com");
             Call (CallGoto Scenario.blank "https://example.com" 30000);
             Yield PageLoaded;
             Call (CallWaitForLoadState Scenario.blank 30000);
             Call (ConsoleLog (LogWaiting (WaitTime (Fin 2000))));
             Call (CallSetTimeout (Fin 2000)); Call TimerFired;
             Call (CallCaptureScreenshot Scenario.blank);
             Call (CallClose (BrowserHandle 0)); Yield BrowserClosed]) as ->
    by (vm_compute; reflexivity).
  split; [simpl; auto 20|].
  split; [|vm_compute; reflexivity].
  intros t H; repeat (destruct H as [H|H]; [discriminate|]); exact H.
Qed.

(** ** Cleanup of a launched browser *)

Lemma set_timeouts_same (s : locals) : timeouts s = [] -> set_timeouts [] s = s.
Proof. destruct s; simpl; now intros ->. Qed.

Lemma connect_port_launch (options : OpenCommandOptions) :
  is_connect options = false -> connect_port options = None.
Proof. unfold connect_port, is_connect; now intros ->. Qed.

Section LaunchCleanup.

Variable env : Env.
Variable options : OpenCommandOptions.
Variable b : Browser.

Hypothesis launch_mode : is_connect options = false.
Hypothesis launched : launch env = Ok b.

Lemma outfit_owned : triple (owns b) (owns b) quiet (outfit env options).
Proof.
  unfold outfit, owns, quiet.
  triple_auto; simpl; try tauto; intros s [H1 H2]; split; assumption.
Qed.

Lemma acquire_launch_owned :
  triple (fun s => timeouts s = []) (owns b) quiet (acquire_launch env options).
Proof.
  intros s Hs; unfold acquire_launch.
  rewrite bind_ok with (a := tt) by reflexivity.
  rewrite bind_ok with (a := b) by exact launched.
  rewrite bind_ok with (a := tt) by reflexivity.
  cbn [prepend trace final yield await modify app].
  destruct (outfit_owned (set_browser b s)) as [Hi Ht]; [now split|].
  split; [exact Hi|].
  repeat (constructor; [unfold quiet; simpl; tauto|]); exact Ht.
Qed.

Lemma continuation_keeps (I : locals -> Prop) (url : string) (p : Page) :
  (forall s v, I s -> I (set_consoleMessages v s)) ->
  (forall s v, I s -> I (set_networkMessages v s)) ->
  (forall s, I s -> I (set_timeouts [] s)) ->
  triple I I quiet
         (monitor env options url p ;;
          navigate env options url p ;;
          after_navigation env options p).
Proof.
  intros Hc Hn Ht.
  unfold monitor, navigate, after_navigation, wait_for, clear_timeouts, report, quiet.
  triple_auto; simpl; try tauto; auto.
Qed.

Lemma report_error_keeps (I : locals -> Prop) (e : thrown) :
  (forall s, I s -> I (set_timeouts [] s)) ->
  triple I I quiet (report_error e).
Proof.
  intros Ht; unfold report_error, clear_timeouts, quiet.
  triple_auto; simpl; try tauto; auto.
Qed.

Lemma owned_stable :
  (forall s v, owns b s -> owns b (set_consoleMessages v s)) /\
  (forall s v, owns b s -> owns b (set_networkMessages v s)) /\
  (forall s, owns b s -> owns b (set_timeouts [] s)).
Proof. unfold owns; repeat split; simpl; tauto. Qed.

Lemma recording_stable (path : string) (p : Page) :
  (forall s v, records b path p s -> records b path p (set_consoleMessages v s)) /\
  (forall s v, records b path p s -> records b path p (set_networkMessages v s)) /\
  (forall s, records b path p s -> records b path p (set_timeouts [] s)).
Proof. unfold records, owns; repeat split; simpl; tauto. Qed.

(** the inner [try] and [catch] blocks leave the launched browser open *)
Lemma operation_owned (url : string) :
  triple (fun s => timeouts s = []) (owns b) quiet
         (try_catch (operation env options url) report_error).
Proof.
  destruct owned_stable as (Hc & Hn & Ht).
  apply triple_try_catch; [|intros e; now apply report_error_keeps].
  unfold operation, acquire; rewrite (connect_port_launch _ launch_mode).
  apply triple_bind; [exact acquire_launch_owned|].
  intros p; now apply continuation_keeps.
Qed.

Section Recording.

Variables (path : string) (ctx : BrowserContext) (p : Page).
Hypothesis video_set_up : setupVideoRecording env = Ok (Some path).
Hypothesis context_created : newContext env = Ok ctx.
Hypothesis page_created : newPage env = Ok p.

Lemma outfit_recording (s : locals) :
  owns b s -> records b path p (final (outfit env options s)).
Proof.
  intros Hs; unfold outfit.
  rewrite bind_ok with (a := Some path) by exact video_set_up.
  rewrite bind_ok with (a := tt) by reflexivity.
  cbn [prepend final await modify].
  assert (forall c s', when (truthy_string (video options)) (perform c) s'
                       = {| trace := if truthy_string (video options)
                                     then [Call c] else [];
                            final := s'; res := Ok tt |}) as Hwhen
    by (intros c s'; unfold when; now destruct (truthy_string _)).
  rewrite bind_ok with (a := tt) by (now rewrite Hwhen).
  rewrite Hwhen; cbn [prepend final].
  rewrite bind_ok with (a := ctx) by exact context_created.
  rewrite bind_ok with (a := tt) by reflexivity.
  rewrite bind_ok with (a := p) by exact page_created.
  rewrite bind_ok with (a := tt) by reflexivity.
  cbn [prepend final await modify].
  match goal with
  | |- records _ _ _ (final (bind ?c ?k ?s0)) =>
      assert (triple (records b path p) (records b path p) (fun _ => True) (bind c k))
        as Hk by (triple_auto; exact I);
      apply (Hk s0)
  end.
  destruct Hs as [Hb Ht]; repeat split; assumption.
Qed.

Lemma operation_recording (url : string) :
  triple (fun s => timeouts s = []) (records b path p) quiet
         (try_catch (operation env options url) report_error).
Proof.
  destruct (recording_stable path p) as (Hc & Hn & Ht).
  apply triple_try_catch; [|intros e; now apply report_error_keeps].
  unfold operation, acquire; rewrite (connect_port_launch _ launch_mode).
  apply triple_bind; [|intros p'; now apply continuation_keeps].
  intros s Hs; split; [|now apply acquire_launch_owned].
  unfold acquire_launch.
  rewrite bind_ok with (a := tt) by reflexivity.
  rewrite bind_ok with (a := b) by exact launched.
  rewrite bind_ok with (a := tt) by reflexivity.
  cbn [prepend final yield await modify].
  apply outfit_recording; now split.
Qed.

End Recording.

End LaunchCleanup.

Section Finalization.

Variable env : Env.

Lemma finalize_video_events (s : locals) :
  Forall video_event (trace (finalize_video env s)).
Proof.
  assert (triple (fun _ => True) (fun _ => True) video_event (finalize_video env)) as H
    by (unfold finalize_video; triple_auto; simpl; auto).
  now apply (H s).
Qed.

Lemma finalize_video_completes (s : locals) :
  (forall e, stopVideoRecording env <> Throw e) ->
  res (finalize_video env s) = Ok tt /\ final (finalize_video env s) = s.
Proof.
  intros Hstop; unfold finalize_video.
  rewrite bind_ok with (a := s) by reflexivity; cbn [prepend get res final].
  destruct (videoPath s) as [path|]; [|now split].
  destruct (page s) as [p|]; [|now split].
  destruct (JsString.truthy path); [|now split].
  cbn [when]; unfold bind, await; cbn [res final trace].
  destruct (stopVideoRecording env) as [[m|]|e]; [| |now destruct (Hstop e)].
  - destruct (JsString.truthy m); now split.
  - now split.
Qed.




End Finalization.

Lemma admitted_connect (env : Env) (query : string)
      (options options' : OpenCommandOptions) (url : string) :
  admitted env query options options' url ->
  is_connect options' = is_connect options.
Proof.
  intros (_ & _ & _ & _ & _ & ->).
  rewrite with_defaults_connect.
  apply with_url_connect.
Qed.




(** ** Sessions attached to a running browser *)

Lemma triple_bind_await {A B} (I : locals -> Prop) (P : event -> Prop)
      (c : call) (r : result A) (k : A -> M B) :
  P (Call c) -> (forall a, r = Ok a -> triple I I P (k a)) ->
  triple I I P (bind (await c r) k).
Proof.
  intros Hc Hk s H; unfold bind, await; cbn [res trace final].
  destruct r as [a|e]; cbn [trace final].
  - destruct (Hk a eq_refl s H) as [Hi Ht].
    split; [exact Hi|constructor; assumption].
  - split; [exact H|repeat constructor; exact Hc].
Qed.

Section Attached.

Variable env : Env.
Variable options : OpenCommandOptions.
Variable port : N.

Hypothesis connect_mode : connect_port options = Some port.

Lemma connect_mode_is_connect : is_connect options = true.
Proof.
  unfold connect_port, is_connect in *.
  destruct (truthy_number (connectTo options)); [reflexivity|discriminate].
Qed.

Ltac attached_side :=
  unfold attached_event, attached_state in *;
  first
    [ split; [simpl; tauto|intros ? ?; discriminate]
    | intros ? [? ?]; split; simpl; assumption ].

Lemma acquire_connect_attached : stays_attached env (acquire_connect env options port).
Proof.
  unfold stays_attached, acquire_connect.
  apply triple_bind; [apply triple_yield; attached_side|intros _].
  apply triple_bind_await; [attached_side|intros b Hb].
  apply triple_bind;
    [apply triple_modify; unfold attached_state;
     intros s [Hv _]; split; [exact Hv|];
     simpl; intros b' E; inversion E; subst; exact Hb|intros _].
  triple_auto; try attached_side.
Qed.

Lemma continuation_attached (p : Page) :
  stays_attached env (monitor env options "current" p ;;
          navigate env options "current" p ;;
          after_navigation env options p).
Proof.
  unfold stays_attached.
  unfold monitor, navigate, after_navigation, wait_for, clear_timeouts, report.
  rewrite connect_mode_is_connect; cbn [String.eqb Ascii.eqb Bool.eqb andb].
  triple_auto; try attached_side.
Qed.

Lemma report_error_attached (e : thrown) : stays_attached env (report_error e).
Proof.
  unfold stays_attached, report_error, clear_timeouts.
  triple_auto; try attached_side.
Qed.

Lemma cleanup_attached : stays_attached env (cleanup env options).
Proof.
  unfold stays_attached, cleanup, clear_timeouts, finalize_video, close_browser.
  rewrite connect_mode_is_connect; cbn [negb].
  apply triple_bind; [triple_auto; try attached_side|intros _].
  apply triple_bind.
  - apply triple_get; intros s0 [Hv _]; rewrite Hv.
    apply triple_ret.
  - intros _; apply triple_get; intros s0 [_ Hb].
    destruct (browser s0) as [b|]; [|apply triple_ret].
    apply triple_await; split; [simpl; tauto|].
    intros b' E; inversion E; subst; now apply Hb.
Qed.

Lemma protected_attached :
  stays_attached env (protected env options (operation env options "current")).
Proof.
  unfold stays_attached, protected.
  apply triple_try_finally; [|exact cleanup_attached].
  apply triple_try_catch; [|exact report_error_attached].
  unfold operation, acquire; rewrite connect_mode.
  apply triple_bind; [exact acquire_connect_attached|].
  exact continuation_attached.
Qed.

Lemma attached_yields (url : string) :
  yields_on_success
    (attached env options url)
    (Connecting port
     :: match select_page (pages env) with
        | Some _ => [UsingExistingPage]
        | None => []
        end).
Proof.
  unfold attached, acquire; rewrite connect_mode.
  unfold acquire_connect, monitor.
  eapply yields_eq.
  - repeat yields_step.
    + destruct (contexts env); [apply yields_await|apply yields_ret].
    + instantiate (1 := match select_page (pages env) with
                        | Some _ => [UsingExistingPage]
                        | None => []
                        end).
      destruct (select_page (pages env)).
      * eapply yields_eq; [repeat yields_step|reflexivity].
      * eapply yields_eq; [repeat yields_step|reflexivity].
    + instantiate (1 := []).
      destruct (viewport options) as [v|]; [|apply yields_ret].
      destruct (JsString.truthy v); [|apply yields_ret]; cbn [when].
      eapply yields_eq; [repeat yields_step|].
      * instantiate (1 := []).
        destruct (viewport_size env v) as [[wd ht]|];
          [apply yields_await|apply yields_ret].
      * reflexivity.
  - cbn [app]; now rewrite !app_nil_r.
Qed.

End Attached.

Lemma connect_port_resolved (query : string) (options : OpenCommandOptions) :
  connect_port (with_defaults (with_url query options)) = connect_port options.
Proof. unfold with_url; now destruct (_ && _). Qed.

Lemma guarded_attached (env : Env) (query : string) (options : OpenCommandOptions)
      (port : N) :
  connect_port options = Some port ->
  url (with_url query options) = Some "current" ->
  stays_attached env (guarded env query options).
Proof.
  intros Hc Hu; unfold stays_attached, guarded; rewrite Hu; cbn [JsString.truthy].
  apply triple_bind;
    [apply triple_await; split; [simpl; tauto|intros ? ?; discriminate]|intros _].
  apply triple_bind;
    [apply triple_await; split; [simpl; tauto|intros ? ?; discriminate]|intros _].
  destruct (_ && _); [apply triple_throw|].
  apply protected_attached with (port := port).
  now rewrite connect_port_resolved.
Qed.

(** C2, as amended: in a connect-mode run with target locator [current]
    nothing disturbs the remote browser: no navigation, reload or launch is
    made, no video is finalized, [BrowserClosed] is never emitted, and the
    only handle closed is the connection to that browser.  When the request
    is admitted and the page is acquired and monitored, the progress
    sequence begins with the connection message, then [UsingExistingPage]
    exactly when the context already had a page, then the "Using current
    page" message with the address of the acquired page. *)
Theorem connect_current_page
        (env : Env) (query : string) (options : OpenCommandOptions) (port : N) :
  connect_port options = Some port ->
  url (with_url query options) = Some "current" ->
  (forall e, In e (run env query options) -> ~ disturbing e) /\
  (forall b, In (Call (CallClose b)) (run env query options) ->
             connectOverCDP env = Ok b) /\
  (forall options' p,
     admitted env query options options' "current" ->
     res (attached env options' "current" initial) = Ok p ->
     exists rest,
       yields (run env query options)
       = Connecting port
         :: match select_page (pages env) with
            | Some _ => [UsingExistingPage]
            | None => []
            end
         ++ UsingCurrentPage (page_url p) :: rest).
Proof.
  intros Hc Hu.
  assert (Forall (attached_event (connectOverCDP env)) (run env query options)) as Hall.
  { assert (stays_attached env
              (try_catch (guarded env query options)
                 (fun error => yield (PlaywrightCheckError (error_message error)))))
      as H.
    { apply triple_try_catch; [now apply guarded_attached with (port := port)|].
      intros e; apply triple_yield; split; [simpl; tauto|intros ? ?; discriminate]. }
    apply (H initial); split; [reflexivity|discriminate]. }
  rewrite Forall_forall in Hall.
  split; [|split].
  - intros e He; now apply (Hall e He).
  - intros b Hb; now apply (Hall _ Hb).
  - intros options' p Ha Hp.
    assert (connect_port options' = Some port) as Hc'.
    { destruct Ha as (_ & _ & _ & _ & _ & ->); now rewrite connect_port_resolved. }
    rewrite (run_attached _ _ _ _ _ _ Ha Hp); cbv zeta.
    pose proof (attached_yields env options' port Hc' "current" initial p Hp) as Hy.
    revert Hy.
    generalize (trace (attached env options' "current" initial)) as t0.
    generalize (final (attached env options' "current" initial)) as s0.
    intros s0 t0 Hy.
    destruct (protected_trace_prefix env options'
                (navigate env options' "current" p ;; after_navigation env options' p) s0)
      as [t ->].
    destruct (bind_trace_prefix (navigate env options' "current" p)
                (fun _ => after_navigation env options' p) s0) as [t' ->].
    unfold navigate at 1.
    rewrite (connect_mode_is_connect options' port Hc').
    cbn [String.eqb Ascii.eqb Bool.eqb andb yield trace].
    rewrite !yields_app, Hy; cbn [yields flat_map preflight app].
    eexists; rewrite <- !app_assoc; cbn [app]; reflexivity.
Qed.

Lemma connect_current_page_witness :
  exists rest,
    yields (run Scenario.one_tab "" (Scenario.request "current" (Some 9222%N) None))
    = Connecting 9222
      :: match select_page (pages Scenario.one_tab) with
         | Some _ => [UsingExistingPage]
         | None => []
         end
      ++ UsingCurrentPage (page_url Scenario.example_page) :: rest.
Proof.
  destruct (connect_current_page
              Scenario.one_tab "" (Scenario.request "current" (Some 9222%N) None)
              9222%N eq_refl eq_refl) as (_ & _ & H).
  apply (H (with_defaults (Scenario.request "current" (Some 9222%N) None))).
  - repeat split.
  - reflexivity.
Defined.

(** C2, as stated, fails in the usual case of a browser that already has a
    page: the item after the connection message is [UsingExistingPage], and
    the "Using current page" message comes third.  It also fails when the
    connection is refused: the error report follows the connection message
    and no "Using current page" message is emitted at all. *)
Lemma connect_current_announces_existing_page :
  connect_port (Scenario.request "current" (Some 9222%N) None) = Some 9222%N /\
  yields (run Scenario.one_tab "" (Scenario.request "current" (Some 9222%N) None))
  = [Connecting 9222; UsingExistingPage;
     UsingCurrentPage "https://example.com/"] /\
  ~ (exists rest,
       yields (run Scenario.one_tab ""
                   (Scenario.request "current" (Some 9222%N) None))
       = Connecting 9222 :: UsingCurrentPage "https://example.com/" :: rest) /\
  yields (run Scenario.refused "" (Scenario.request "current" (Some 9222%N) None))
  = [Connecting 9222; BrowserCommandError "connect ECONNREFUSED 127.0.0.1:9222"].
Proof.
  split; [reflexivity|].
  assert (yields (run Scenario.one_tab ""
                      (Scenario.request "current" (Some 9222%N) None))
          = [Connecting 9222; UsingExistingPage;
             UsingCurrentPage "https://example.com/"]) as ->
    by (vm_compute; reflexivity).
  split; [reflexivity|].
  split; [|vm_compute; reflexivity].
  intros [rest H]; discriminate H.
Qed.

(** * Further properties of [execute] *)

(** ** The outer guard *)

Lemma bind_throw {A B} (c : M A) (k : A -> M B) (s : locals) (e : thrown) :
  res (c s) = Throw e ->
  bind c k s = {| trace := trace (c s); final := final (c s); res := Throw e |}.
Proof. unfold bind; intros ->; reflexivity. Qed.

Lemma with_url_cases (query : string) (options : OpenCommandOptions) :
  with_url query options
  = if negb (truthy_string (url options)) && JsString.truthy query
    then with_target query options else options.
Proof. reflexivity. Qed.

(** X1: when a preflight check throws, the run consists of the checks made
    so far and one "Playwright check error" item with the message of the
    thrown value: no session is acquired and nothing else is emitted. *)
Theorem preflight_failure_stops_the_run
        (env : Env) (query : string) (options : OpenCommandOptions) (e : thrown) :
  (ensurePlaywright env = Throw e ->
   run env query options = [Call CallEnsurePlaywright; check_error e]) /\
  (ensurePlaywright env = Ok tt -> ensurePlaywrightBrowsers env = Throw e ->
   run env query options = preflight ++ [check_error e]).
Proof.
  split.
  - intros H; unfold run, execute, try_catch, guarded.
    rewrite bind_throw with (e := e) by exact H.
    reflexivity.
  - intros H1 H2; unfold run, execute, try_catch, guarded.
    rewrite bind_ok with (a := tt) by exact H1.
    cbn [prepend trace final res await].
    rewrite bind_throw with (e := e) by exact H2.
    reflexivity.
Qed.

Lemma preflight_failure_stops_the_run_witness :
  run (with_preflight (Throw (ThrownError "playwright is not installed")) Scenario.healthy)
      "" (Scenario.request "https://example.com" None None)
  = [Call CallEnsurePlaywright;
     Yield (PlaywrightCheckError "playwright is not installed")].
Proof.
  apply (proj1 (preflight_failure_stops_the_run
                  (with_preflight (Throw (ThrownError "playwright is not installed"))
                                  Scenario.healthy)
                  "" (Scenario.request "https://example.com" None None)
                  (ThrownError "playwright is not installed"))).
  reflexivity.
Defined.

(** the run of a request without a target *)
Lemma guarded_without_target (env : Env) (query : string)
      (options : OpenCommandOptions) (s : locals) :
  ensurePlaywright env = Ok tt -> ensurePlaywrightBrowsers env = Ok tt ->
  truthy_string (url (with_url query options)) = false ->
  guarded env query options s
  = {| trace := preflight ++ [Yield ProvideUrl]; final := s; res := Ok tt |}.
Proof.
  intros H1 H2 Hu; unfold guarded.
  rewrite bind_ok with (a := tt) by exact H1.
  cbn [prepend trace final res await].
  rewrite bind_ok with (a := tt) by exact H2.
  cbn [prepend trace final res await].
  destruct (url (with_url query options)) as [u|]; [|reflexivity].
  simpl in Hu; rewrite Hu; reflexivity.
Qed.

(** X2: when the request has no target (no [url] option, or an empty one)
    and the query is empty, the run makes the preflight checks, emits the
    usage message and stops: no browser is launched or attached to, and
    nothing is closed. *)
Theorem missing_target_asks_for_url
        (env : Env) (query : string) (options : OpenCommandOptions) :
  ensurePlaywright env = Ok tt ->
  ensurePlaywrightBrowsers env = Ok tt ->
  truthy_string (url options) = false ->
  JsString.truthy query = false ->
  run env query options = preflight ++ [Yield ProvideUrl] /\
  render ProvideUrl
  = "Please provide a URL to open. Usage: vibe-tools browser open <url> [options]"%string.
Proof.
  intros H1 H2 Hu Hq; split; [|reflexivity].
  unfold run, execute, try_catch.
  rewrite guarded_without_target; auto.
  rewrite with_url_cases, Hq, andb_false_r; exact Hu.
Qed.

Lemma missing_target_asks_for_url_witness :
  run Scenario.healthy ""
      {| url := Some ""; connectTo := None; video := None; html := None;
         network := None; console := None; viewport := None; headless := None;
         timeout := None; wait := None; screenshot := None; debug := None |}
  = preflight ++ [Yield ProvideUrl].
Proof.
  apply (missing_target_asks_for_url Scenario.healthy ""); reflexivity.
Defined.

(** X3: the target of a run is the [url] option when it is set (the query
    is then ignored), and the query otherwise: the run is the run of the
    request whose [url] option is that target. *)
Theorem target_resolution
        (env : Env) (query : string) (options : OpenCommandOptions) :
  (truthy_string (url options) = true ->
   forall query', run env query options = run env query' options) /\
  (truthy_string (url options) = false -> JsString.truthy query = true ->
   forall query',
     run env query options = run env query' (with_target query options)).
Proof.
  split.
  - intros Hu query'.
    assert (forall q, with_url q options = options) as Hw
      by (intros q; rewrite with_url_cases, Hu; reflexivity).
    unfold run, execute, try_catch, guarded.
    now rewrite (Hw query), (Hw query').
  - intros Hu Hq query'.
    assert (with_url query options = with_target query options) as Hw
      by (rewrite with_url_cases, Hu, Hq; reflexivity).
    assert (with_url query' (with_target query options) = with_target query options)
      as Hw'.
    { rewrite with_url_cases; cbn [with_target url truthy_string].
      rewrite Hq; reflexivity. }
    unfold run, execute, try_catch, guarded.
    now rewrite Hw, Hw'.
Qed.

Lemma target_resolution_witness :
  run Scenario.healthy "https://example.org"
      (Scenario.request "https://example.com" None None)
  = run Scenario.healthy "" (Scenario.request "https://example.com" None None) /\
  run Scenario.healthy "https://example.org"
      {| url := None; connectTo := None; video := None; html := None;
         network := None; console := None; viewport := None; headless := None;
         timeout := None; wait := None; screenshot := None; debug := None |}
  = run Scenario.healthy "" (Scenario.request "https://example.org" None None).
Proof.
  split.
  - apply (proj1 (target_resolution Scenario.healthy "https://example.org"
                    (Scenario.request "https://example.com" None None)));
      reflexivity.
  - apply (proj2 (target_resolution Scenario.healthy "https://example.org"
                    {| url := None; connectTo := None; video := None; html := None;
                       network := None; console := None; viewport := None;
                       headless := None; timeout := None; wait := None;
                       screenshot := None; debug := None |}));
      reflexivity.
Defined.

(** ** Invariants of whole runs *)

(** a step of a proof of an invariant that keeps the answer of each awaited
    collaborator at hand *)
Ltac triple_walk_step :=
  lazymatch goal with
  | |- triple _ _ _ (bind get _) => apply triple_get; intros ? ?
  | |- triple _ _ _ (bind (await _ _) _) => apply triple_bind_await; [|intros ? ?]
  | |- triple _ _ _ (bind _ _) => apply triple_bind; [|intros ?]
  | |- triple _ _ _ (ret _) => apply triple_ret
  | |- triple _ _ _ (throw _) => apply triple_throw
  | |- triple _ _ _ (yield _) => apply triple_yield
  | |- triple _ _ _ (await _ _) => apply triple_await
  | |- triple _ _ _ (perform _) => apply triple_await
  | |- triple _ _ _ (modify _) => apply triple_modify
  | |- triple _ _ _ (try_catch _ _) => apply triple_try_catch; [|intros ?]
  | |- triple _ _ _ (try_finally _ _) => apply triple_try_finally
  | |- triple _ _ _ (for_of _ _) => apply triple_for_of; intros ?
  | |- triple _ _ _ (when _ _) => apply triple_when
  | |- triple _ _ _ (debug_log _ _) => apply triple_debug_log
  | |- triple _ _ _ (match ?x with _ => _ end) => destruct x eqn:?
  end.

Ltac triple_walk := repeat triple_walk_step.

Lemma is_connect_port (options : OpenCommandOptions) :
  is_connect options = true -> exists port, connect_port options = Some port.
Proof.
  unfold is_connect, connect_port; intros H; rewrite H.
  destruct (connectTo options) as [port|]; [now exists port|discriminate H].
Qed.

(** every run either is admitted to the inner [try] block or consists of
    events of the outer guard only *)
Lemma run_cases (env : Env) (query : string) (options : OpenCommandOptions) :
  (exists url, admitted env query options (with_defaults (with_url query options)) url)
  \/ Forall outer_event (run env query options).
Proof.
  destruct (ensurePlaywright env) as [[]|e] eqn:H1.
  2:{ right; unfold run, execute, try_catch, guarded.
      rewrite bind_throw with (e := e) by exact H1.
      cbn; repeat constructor. }
  destruct (ensurePlaywrightBrowsers env) as [[]|e] eqn:H2.
  2:{ right; unfold run, execute, try_catch, guarded.
      rewrite bind_ok with (a := tt) by exact H1.
      cbn [prepend trace final res await].
      rewrite bind_throw with (e := e) by exact H2.
      cbn; repeat constructor. }
  destruct (truthy_string (url (with_url query options))) eqn:Hu.
  2:{ right; unfold run, execute, try_catch.
      rewrite guarded_without_target by assumption.
      repeat constructor. }
  destruct (is_connect options && truthy_string (video options)) eqn:Hc.
  - right; apply andb_true_iff in Hc as [Hc Hv].
    unfold run, execute, try_catch.
    rewrite (guarded_conflict env query options initial Hc Hv), H1, H2, Hu.
    repeat constructor.
  - left.
    destruct (url (with_url query options)) as [u|] eqn:Hu';
      [|simpl in Hu; discriminate].
    exists u; repeat split; auto.
Qed.

(** a property of the events of the outer guard and of the protected
    operation is a property of every run *)
Lemma run_forall (env : Env) (query : string) (options : OpenCommandOptions)
      (P : event -> Prop) :
  (forall e, outer_event e -> P e) ->
  (forall options' url,
     admitted env query options options' url ->
     Forall P (trace (protected env options' (operation env options' url) initial))) ->
  Forall P (run env query options).
Proof.
  intros Houter Hbody.
  destruct (run_cases env query options) as [[u Ha]|Hout].
  - rewrite (run_admitted _ _ _ _ _ Ha); cbv zeta.
    specialize (Hbody _ _ Ha).
    apply Forall_app; split; [repeat constructor; now apply Houter|].
    apply Forall_app; split; [exact Hbody|].
    unfold report_failure; destruct (res _); repeat constructor.
    now apply Houter.
  - eapply Forall_impl; [exact Houter|exact Hout].
Qed.

Lemma admitted_fields (env : Env) (query : string)
      (options options' : OpenCommandOptions) (url : string) :
  admitted env query options options' url ->
  connectTo options' = connectTo options /\
  video options' = video options /\
  viewport options' = viewport options /\
  timeout options' = timeout options /\
  wait options' = wait options /\
  screenshot options' = screenshot options /\
  debug options' = debug options /\
  headless options' = headless options /\
  html options' = match html options with None => Some false | h => h end.
Proof.
  intros (_ & _ & _ & _ & _ & ->).
  rewrite with_url_cases; destruct (_ && _); repeat split.
Qed.

(** ** Sessions attached to a running browser, whatever the target *)

Ltac frame_side :=
  unfold attached_state, holds_only in *; simpl in *;
  solve [ exact I | tauto | congruence | intuition congruence
        | intros ? [? ?]; split; [assumption|intros ? ?; congruence]
        | intros ? [? ?]; split; [assumption|auto]
        | match goal with
          | H : _ /\ (forall b, browser ?s = Some b -> _) |- _ =>
              apply (proj2 H); assumption
          | H : forall b, browser ?s = Some b -> _ |- _ => apply H; assumption
          end ].

Lemma protected_remote_safe (env : Env) (options : OpenCommandOptions) (url : string) :
  is_connect options = true ->
  truthy_string (video options) = false ->
  triple (attached_state (connectOverCDP env)) (attached_state (connectOverCDP env))
         (remote_safe (connectOverCDP env))
         (protected env options (operation env options url)).
Proof.
  intros Hc Hv.
  destruct (is_connect_port options Hc) as [port Hp].
  unfold protected, operation, acquire; rewrite Hp.
  unfold acquire_connect, monitor, navigate, after_navigation, wait_for,
    report, report_error, cleanup, finalize_video, close_browser, clear_timeouts,
    recordVideo_of.
  rewrite Hc, Hv; cbn [negb].
  triple_walk; try frame_side.
Qed.

(** X4: a connect-mode run, whatever its target, leaves the remote browser
    as it is: it launches nothing, sets up, records and finalizes no video,
    creates no context with video recording, emits neither a viewport
    complaint nor "Browser closed.", and closes no handle but the
    connection that [connectOverCDP] returned. *)
Theorem connect_mode_frame
        (env : Env) (query : string) (options : OpenCommandOptions) :
  is_connect options = true ->
  Forall (remote_safe (connectOverCDP env)) (run env query options).
Proof.
  intros Hc; apply run_forall.
  - intros [[]|[]]; simpl; tauto.
  - intros options' url Ha.
    destruct (admitted_fields _ _ _ _ _ Ha) as (Hct & Hvd & _).
    assert (is_connect options' = true) as Hc'
      by (now rewrite (admitted_connect _ _ _ _ _ Ha)).
    assert (truthy_string (video options') = false) as Hv.
    { destruct Ha as (_ & _ & _ & _ & Hx & _).
      rewrite Hc in Hx; rewrite Hvd; exact Hx. }
    apply (protected_remote_safe env options' url Hc' Hv initial).
    split; [reflexivity|discriminate].
Qed.

Lemma connect_mode_frame_witness :
  Forall (remote_safe (connectOverCDP Scenario.only_new_tab))
         (run Scenario.only_new_tab ""
              (Scenario.request "https://example.com" (Some 9222%N) None)).
Proof.
  apply (connect_mode_frame Scenario.only_new_tab ""); reflexivity.
Defined.

(** ** Sessions on a browser of our own *)

Ltac own_side :=
  unfold holds_only in *; simpl in *;
  solve [ exact I | tauto | congruence
        | intros ? ? ? ?; first [congruence | eauto]
        | match goal with
          | H : forall b, browser ?s = Some b -> _ |- _ => apply H; assumption
          end ].

Lemma protected_own_session (env : Env) (options : OpenCommandOptions) (url : string) :
  is_connect options = false ->
  triple (holds_only (launch env)) (holds_only (launch env))
         (own_session (launch env))
         (protected env options (operation env options url)).
Proof.
  intros Hc.
  unfold protected, operation, acquire; rewrite (connect_port_launch _ Hc).
  unfold acquire_launch, outfit, monitor, navigate, after_navigation, wait_for,
    report, report_error, cleanup, finalize_video, close_browser, clear_timeouts.
  rewrite Hc, !andb_false_r; cbn [negb].
  triple_walk; try own_side.
Qed.

(** X5: a launch-mode run, whatever its target, never connects to another
    browser, never announces or reuses an existing page, never reloads, and
    closes no handle but the browser that [launch] returned. *)
Theorem launch_mode_frame
        (env : Env) (query : string) (options : OpenCommandOptions) :
  is_connect options = false ->
  Forall (own_session (launch env)) (run env query options).
Proof.
  intros Hc; apply run_forall.
  - intros [[]|[]]; simpl; tauto.
  - intros options' url Ha.
    assert (is_connect options' = false) as Hc'
      by (now rewrite (admitted_connect _ _ _ _ _ Ha)).
    apply (protected_own_session env options' url Hc' initial).
    intros b Hb; discriminate Hb.
Qed.

Lemma launch_mode_frame_witness :
  Forall (own_session (launch Scenario.healthy))
         (run Scenario.healthy "" (Scenario.request "reload-current" None None)).
Proof.
  apply (launch_mode_frame Scenario.healthy ""); reflexivity.
Defined.

(** ** Errors inside the operation *)

Lemma operation_timeouts (env : Env) (options : OpenCommandOptions) (url : string) :
  triple (fun s => timeouts s = []) (fun s => timeouts s = []) (fun _ => True)
         (operation env options url).
Proof.
  unfold operation, acquire, acquire_connect, acquire_launch, outfit, monitor,
    navigate, after_navigation, wait_for, report, clear_timeouts.
  triple_walk; auto.
Qed.

Lemma attached_timeouts (env : Env) (options : OpenCommandOptions) (url : string) :
  timeouts (final (attached env options url initial)) = [].
Proof.
  assert (triple (fun s => timeouts s = []) (fun s => timeouts s = []) (fun _ => True)
                 (attached env options url)) as H.
  { unfold attached, acquire, acquire_connect, acquire_launch, outfit, monitor.
    triple_walk; auto. }
  now apply (H initial).
Qed.

(** a throw inside the inner [try] block, with no timer pending: the report
    of the inner [catch] block, then the [finally] block *)
Lemma protected_throw (env : Env) (options : OpenCommandOptions) (c : M unit)
      (s : locals) (e : thrown) :
  res (c s) = Throw e -> timeouts (final (c s)) = [] ->
  trace (protected env options c s)
  = trace (c s) ++ [command_error e] ++ trace (cleanup env options (final (c s))) /\
  report_failure (protected env options c s)
  = report_failure (cleanup env options (final (c s))).
Proof.
  intros Hr Ht; unfold protected, try_finally, try_catch, report_failure.
  rewrite Hr; unfold report_error.
  rewrite bind_ok with (a := tt) by (now rewrite clear_timeouts_outcome).
  rewrite clear_timeouts_outcome, Ht, (set_timeouts_same _ Ht).
  cbn [prepend trace final res map app yield].
  split; [now rewrite <- app_assoc|].
  now destruct (res (cleanup env options (final (c s)))).
Qed.

(** X6: when anything inside the inner [try] block throws (acquisition, a
    collector, the initial load, a reload, the markup or the screenshot), the
    run stops the operation there, reports the error once as "Browser
    command error: <message>", and goes straight to cleanup. *)
Theorem operation_error_is_reported_once
        (env : Env) (query : string) (options options' : OpenCommandOptions)
        (url : string) (e : thrown) :
  admitted env query options options' url ->
  res (operation env options' url initial) = Throw e ->
  let attempt := operation env options' url initial in
  let finish := cleanup env options' (final attempt) in
  run env query options
  = preflight ++ trace attempt ++ [command_error e]
      ++ trace finish ++ report_failure finish.
Proof.
  intros Ha Hr; cbv zeta.
  rewrite (run_admitted _ _ _ _ _ Ha); cbv zeta.
  destruct (protected_throw env options' (operation env options' url) initial e Hr)
    as [-> ->].
  - now apply (operation_timeouts env options' url initial).
  - now rewrite <- !app_assoc.
Qed.

Lemma operation_error_is_reported_once_witness :
  run Scenario.broken_launch "" (Scenario.request "https://example.com" None None)
  = preflight
      ++ [Yield LaunchingBrowser; Call (CallLaunch true)]
      ++ [Yield (BrowserCommandError "Executable doesn't exist")].
Proof.
  rewrite (operation_error_is_reported_once
             Scenario.broken_launch "" (Scenario.request "https://example.com" None None)
             (with_defaults (Scenario.request "https://example.com" None None))
             "https://example.com" Scenario.launch_failure).
  - reflexivity.
  - repeat split.
  - reflexivity.
Defined.

Lemma run_attached_throw (env : Env) (query : string)
      (options options' : OpenCommandOptions) (url : string) (p : Page)
      (c : M unit) (e : thrown) :
  admitted env query options options' url ->
  res (attached env options' url initial) = Ok p ->
  (forall s, navigate env options' url p s = c s) ->
  (forall s, res (c s) = Throw e /\ final (c s) = s) ->
  let before := attached env options' url initial in
  let finish := cleanup env options' (final before) in
  run env query options
  = preflight ++ trace before ++ trace (c (final before)) ++ [command_error e]
      ++ trace finish ++ report_failure finish.
Proof.
  intros Ha Hp Hn Hc; cbv zeta.
  rewrite (run_attached _ _ _ _ _ _ Ha Hp); cbv zeta.
  pose proof (attached_timeouts env options' url) as Ht.
  revert Ht.
  generalize (trace (attached env options' url initial)) as t0.
  generalize (final (attached env options' url initial)) as s0.
  intros s0 t0 Ht.
  destruct (Hc s0) as [Hr Hf].
  assert ((navigate env options' url p ;; after_navigation env options' p) s0
          = c s0) as Hb.
  { rewrite bind_throw with (e := e) by (now rewrite Hn).
    rewrite Hn; destruct (c s0); simpl in *; now subst. }
  destruct (protected_throw env options'
              (navigate env options' url p ;; after_navigation env options' p) s0 e)
    as [Htr Hrf]; rewrite ?Hb, ?Hf; auto.
  rewrite Htr, Hrf, Hb, Hf.
  now rewrite <- !app_assoc.
Qed.

(** X7: the initial load is mandatory: when [goto] throws, no wait for
    network idleness, wait directive, diagnostics, markup or screenshot
    follows; the error is reported as a browser command error and cleanup
    runs at once. *)
Theorem load_failure_is_fatal
        (env : Env) (query : string) (options options' : OpenCommandOptions)
        (url : string) (p : Page) (e : thrown) :
  admitted env query options options' url ->
  res (attached env options' url initial) = Ok p ->
  String.eqb url "current" && is_connect options' = false ->
  String.eqb url "reload-current" && is_connect options' = false ->
  goto env = Throw e ->
  let before := attached env options' url initial in
  let finish := cleanup env options' (final before) in
  run env query options
  = preflight ++ trace before
      ++ [Yield (NavigatingTo url);
          Call (CallGoto p url (effective_timeout env options'));
          command_error e]
      ++ trace finish ++ report_failure finish.
Proof.
  intros Ha Hp Hc Hr Hg; cbv zeta.
  rewrite (run_attached_throw env query options options' url p
             (yield (NavigatingTo url) ;;
              await (CallGoto p url (effective_timeout env options')) (goto env))
             e Ha Hp).
  - unfold bind, yield, await; cbn [res trace final app]; reflexivity.
  - intros s; unfold navigate; rewrite Hc, Hr.
    unfold bind, yield, await; cbn [res trace final]; rewrite Hg; reflexivity.
  - intros s; unfold bind, yield, await; cbn [res trace final]; rewrite Hg.
    now split.
Qed.

Lemma load_failure_is_fatal_witness :
  yields (run (with_goto (Throw (ThrownError "net::ERR_NAME_NOT_RESOLVED"))
                         Scenario.healthy)
              "" (Scenario.request "https://example.invalid" None (Some "2s")))
  = [LaunchingBrowser; NavigatingTo "https://example.invalid";
     BrowserCommandError "net::ERR_NAME_NOT_RESOLVED"; BrowserClosed].
Proof.
  rewrite (load_failure_is_fatal
             (with_goto (Throw (ThrownError "net::ERR_NAME_NOT_RESOLVED"))
                        Scenario.healthy)
             "" (Scenario.request "https://example.invalid" None (Some "2s"))
             (with_defaults (Scenario.request "https://example.invalid" None (Some "2s")))
             "https://example.invalid" Scenario.blank
             (ThrownError "net::ERR_NAME_NOT_RESOLVED")).
  - reflexivity.
  - repeat split.
  - reflexivity.
  - reflexivity.
  - reflexivity.
  - reflexivity.
Defined.

(** ** Reloading the current page *)




(** ** The browsing context when connecting *)

Lemma bind_final_ok {A B} (c : M A) (k : A -> M B) (s : locals) (a : A) :
  res (c s) = Ok a -> final (bind c k s) = final (k a (final (c s))).
Proof. intros H; now rewrite (bind_ok _ _ _ _ H). Qed.

Lemma acquire_connect_keeps_context (env : Env) (options : OpenCommandOptions)
      (port : N) (c : BrowserContext) (l : list BrowserContext) (s : locals)
      (b : Browser) :
  connectOverCDP env = Ok b ->
  contexts env = c :: l ->
  context (final (acquire_connect env options port s)) = Some c /\
  forall rv, ~ In (Call (CallNewContext rv)) (trace (acquire_connect env options port s)).
Proof.
  intros Hb Hc.
  assert (triple (fun s' => s' = s) (fun s' => context s' = Some c)
                 (fun e => forall rv, e <> Call (CallNewContext rv))
                 (acquire_connect env options port)) as H.
  { unfold acquire_connect; rewrite Hc.
    intros s' ->.
    rewrite bind_ok with (a := tt) by reflexivity.
    rewrite bind_ok with (a := b) by exact Hb.
    rewrite bind_ok with (a := tt) by reflexivity.
    rewrite bind_ok with (a := tt) by apply debug_log_res.
    rewrite debug_log_final, debug_log_outcome.
    rewrite bind_ok with (a := set_browser b s) by reflexivity.
    rewrite bind_ok with (a := c) by reflexivity.
    rewrite bind_ok with (a := tt) by reflexivity.
    cbn [prepend trace final yield await modify get ret app].
    match goal with
    | |- context [bind ?c0 ?k0 ?s0] =>
        assert (triple (fun s' => context s' = Some c) (fun s' => context s' = Some c)
                       (fun e => forall rv, e <> Call (CallNewContext rv))
                       (bind c0 k0)) as Hk
          by (triple_walk; auto; discriminate);
        destruct (Hk s0 eq_refl) as [Hf Ht]
    end.
    split; [exact Hf|].
    repeat (constructor; [discriminate|]).
    apply Forall_app; split;
      [destruct (truthy_bool (debug options)); repeat constructor; discriminate|].
    exact Ht. }
  destruct (H s eq_refl) as [Hf Ht]; split; [exact Hf|].
  intros rv Hin; rewrite Forall_forall in Ht.
  now apply (Ht _ Hin rv).
Qed.

(** X9: when connecting, the first browsing context of the remote browser is
    the one used, and no context is created; a context is created (without
    video recording, when no video was requested) only when the browser has
    none. *)
Theorem context_reuse_policy
        (env : Env) (options : OpenCommandOptions) (port : N) (s : locals)
        (b : Browser) :
  connectOverCDP env = Ok b ->
  (forall c l,
     contexts env = c :: l ->
     context (final (acquire_connect env options port s)) = Some c /\
     forall rv,
       ~ In (Call (CallNewContext rv)) (trace (acquire_connect env options port s))) /\
  (contexts env = [] ->
   In (Call (CallNewContext (recordVideo_of options (videoPath s))))
      (trace (acquire_connect env options port s)) /\
   (truthy_string (video options) = false ->
    recordVideo_of options (videoPath s) = None)).
Proof.
  intros Hb; split.
  - intros c l Hc; now apply acquire_connect_keeps_context with (l := l) (b := b).
  - intros Hc; split.
    + unfold acquire_connect; rewrite Hc.
      eapply bind_in_r; [reflexivity|]; cbn [final yield].
      eapply bind_in_r; [exact Hb|]; cbn [final await].
      eapply bind_in_r; [reflexivity|]; cbn [final modify].
      eapply bind_in_r; [apply debug_log_res|]; rewrite debug_log_final.
      eapply bind_in_r; [reflexivity|]; cbn [final get].
      apply bind_in_l; simpl; auto.
    + intros Hv; unfold recordVideo_of; now rewrite Hv.
Qed.

Lemma context_reuse_policy_witness :
  context (final (acquire_connect Scenario.one_tab
                    (Scenario.request "current" (Some 9222%N) None) 9222 initial))
  = Some (ContextHandle 1) /\
  In (Call (CallNewContext None))
     (trace (acquire_connect (with_contexts [] Scenario.one_tab)
               (Scenario.request "current" (Some 9222%N) None) 9222 initial)).
Proof.
  split.
  - apply (proj1 (context_reuse_policy Scenario.one_tab
                    (Scenario.request "current" (Some 9222%N) None) 9222 initial
                    (BrowserHandle 1) eq_refl) (ContextHandle 1) []).
    reflexivity.
  - apply (proj2 (context_reuse_policy (with_contexts [] Scenario.one_tab)
                    (Scenario.request "current" (Some 9222%N) None) 9222 initial
                    (BrowserHandle 1) eq_refl)).
    reflexivity.
Defined.

(** ** What a run does only on request *)

Lemma triple_when_true (I : locals -> Prop) (P : event -> Prop) (b : bool) (c : M unit) :
  (b = true -> triple I I P c) -> triple I I P (when b c).
Proof.
  intros Hc; destruct b; [now apply Hc|].
  intros s H; split; [exact H|constructor].
Qed.

(** the walk of [triple_walk], with the test of each [when] at hand *)
Ltac triple_scan_step :=
  lazymatch goal with
  | |- triple _ _ _ (when _ _) => apply triple_when_true; intros ?
  | _ => triple_walk_step
  end.

Ltac triple_scan := repeat triple_scan_step.

Ltac unfold_protected :=
  unfold protected, operation, acquire, acquire_connect, acquire_launch, outfit,
    monitor, navigate, after_navigation, wait_for, report, report_error, cleanup,
    finalize_video, close_browser, clear_timeouts.

Ltac event_side :=
  simpl in *; solve [ exact I | tauto | congruence | intuition congruence | auto ].

Lemma protected_without_markup (env : Env) (options : OpenCommandOptions)
      (url : string) :
  html options <> Some true ->
  triple (fun _ => True) (fun _ => True) (fun e => ~ markup_event e)
         (protected env options (operation env options url)).
Proof.
  intros Hh; unfold_protected.
  triple_walk; try event_side.
Qed.

(** X10: the page markup is retrieved and emitted only on request: unless
    the [html] option is [true] (it defaults to [false]), a run never calls
    [page.content()] and never emits the markup or its two frame lines. *)
Theorem markup_only_on_request
        (env : Env) (query : string) (options : OpenCommandOptions) :
  html options <> Some true ->
  Forall (fun e => ~ markup_event e) (run env query options).
Proof.
  intros Hh; apply run_forall.
  - intros [[]|[]]; simpl; tauto.
  - intros options' url Ha.
    destruct (admitted_fields _ _ _ _ _ Ha) as (_ & _ & _ & _ & _ & _ & _ & _ & Hh').
    apply (protected_without_markup env options' url); [|exact I].
    rewrite Hh'; destruct (html options) as [[|]|]; congruence.
Qed.

Lemma markup_only_on_request_witness :
  Forall (fun e => ~ markup_event e)
         (run Scenario.healthy "" (Scenario.request "https://example.com" None None)).
Proof.
  apply (markup_only_on_request Scenario.healthy ""); discriminate.
Defined.

Lemma protected_backed_confirmation (env : Env) (options : OpenCommandOptions)
      (url : string) :
  triple (fun _ => True) (fun _ => True)
         (backed_confirmation (captureScreenshot env) (screenshot options))
         (protected env options (operation env options url)).
Proof.
  unfold_protected.
  triple_scan; try event_side.
  simpl; repeat split; try assumption.
  match goal with H : captureScreenshot env = Ok ?a |- _ => now destruct a end.
Qed.

(** X11: a "Screenshot saved to <path>" item is emitted only after
    [captureScreenshot] returned normally, and only with the non-empty path
    of the [screenshot] option. *)
Theorem screenshot_confirmation_is_backed
        (env : Env) (query : string) (options : OpenCommandOptions) :
  Forall (backed_confirmation (captureScreenshot env) (screenshot options))
         (run env query options).
Proof.
  apply run_forall.
  - intros [[]|[]]; simpl; tauto.
  - intros options' url Ha.
    destruct (admitted_fields _ _ _ _ _ Ha) as (_ & _ & _ & _ & _ & Hs & _).
    rewrite <- Hs.
    now apply (protected_backed_confirmation env options' url).
Qed.

Lemma protected_timed (env : Env) (options : OpenCommandOptions) (url : string) :
  triple (fun _ => True) (fun _ => True) (timed_by (effective_timeout env options))
         (protected env options (operation env options url)).
Proof.
  unfold_protected.
  triple_walk; try event_side.
Qed.

(** X12: every call of a run that takes a timeout (the initial load, the
    reload, the wait for network idleness, the selector wait) is given the
    same value: the [timeout] option when it is set, else the configured
    browser timeout, else 30000 ms. *)
Theorem one_effective_timeout
        (env : Env) (query : string) (options : OpenCommandOptions) :
  Forall (timed_by match timeout options with
                   | Some t => t
                   | None => match browser_timeout (config env) with
                             | Some t => t
                             | None => 30000%N
                             end
                   end)
         (run env query options).
Proof.
  apply run_forall.
  - intros [[]|[]]; simpl; tauto.
  - intros options' url Ha.
    destruct (admitted_fields _ _ _ _ _ Ha) as (_ & _ & _ & Ht & _).
    rewrite <- Ht.
    now apply (protected_timed env options' url).
Qed.

(** ** The wait that is performed *)




(** ** Values of the duration parser *)

Close Scope list_scope.

Lemma to_double_number (n : N) : to_double n <> NaN.
Proof.
  unfold to_double.
  destruct (n <? 2 ^ 53)%N; [discriminate|].
  cbv zeta.
  match goal with |- (if ?c then _ else _) <> _ => destruct c; discriminate end.
Qed.

Lemma mul_number (x : jsnum) (k : positive) : x <> NaN -> mul x (Fin (Npos k)) <> NaN.
Proof.
  destruct x as [n| |]; intros H; [|discriminate|congruence].
  rewrite mul_Fin; apply to_double_number.
Qed.

Lemma parseInt10_number (v : string) :
  v <> EmptyString -> all_digits v = true -> parseInt10 v <> NaN.
Proof.
  intros Hne Hd; destruct v as [|c v]; [congruence|].
  simpl in Hd; apply andb_true_iff in Hd as [Hc _].
  unfold parseInt10; rewrite Hc; apply to_double_number.
Qed.

Lemma parseTimeDuration_shape (ds u : string) :
  ds <> EmptyString -> all_digits ds = true ->
  u = "ms" \/ u = "s" \/ u = "m" ->
  parseTimeDuration (ds ++ u)
  = Some (if String.eqb u "ms" then parseInt10 ds
          else if String.eqb u "s" then mul (parseInt10 ds) (Fin 1000)
          else mul (mul (parseInt10 ds) (Fin 60)) (Fin 1000)).
Proof.
  intros Hne Hd Hu; unfold parseTimeDuration.
  rewrite (timeRegex_match_shape _ _ Hne Hd Hu).
  destruct Hu as [->|[->| ->]]; reflexivity.
Qed.

(** X14: a duration returned by the Duration Parser is a number: a
    non-negative integer or Infinity, never NaN; so is the value of every
    time directive of the Wait-Directive Parser. *)
Theorem durations_are_numbers :
  (forall (s : string) (d : jsnum), parseTimeDuration s = Some d -> d <> NaN) /\
  (forall (s : string) (d : jsnum), parseWaitParameter s = Ok (WaitTime d) -> d <> NaN).
Proof.
  assert (forall s d, parseTimeDuration s = Some d -> d <> NaN) as H.
  { intros s d Hs.
    destruct (timeRegex_match s) as [[v u]|] eqn:Hm;
      [|unfold parseTimeDuration in Hs; rewrite Hm in Hs; discriminate].
    apply timeRegex_match_inv in Hm as (-> & Hne & Hd & Hu).
    rewrite (parseTimeDuration_shape _ _ Hne Hd Hu) in Hs.
    pose proof (parseInt10_number v Hne Hd) as Hn.
    inversion Hs; subst d; clear Hs.
    destruct Hu as [->|[->| ->]]; cbn [String.eqb Ascii.eqb Bool.eqb];
      [exact Hn|now apply mul_number|now apply mul_number, mul_number]. }
  split; [exact H|].
  intros s d; unfold parseWaitParameter.
  destruct (JsString.startsWith "time:" s).
  - destruct (parseTimeDuration (JsString.slice 5 s)) as [d'|] eqn:Hd; [|discriminate].
    intros E; inversion E; subst; now apply (H _ _ Hd).
  - destruct (_ || _); [discriminate|].
    destruct (parseTimeDuration s) as [d'|] eqn:Hd.
    + intros E; inversion E; subst; now apply (H _ _ Hd).
    + destruct (_ || _); discriminate.
Qed.

Lemma durations_are_numbers_witness :
  (parseTimeDuration "90s" = Some (Fin 90000) /\ Fin 90000 <> NaN) /\
  (parseWaitParameter "time:250ms" = Ok (WaitTime (Fin 250)) /\ Fin 250 <> NaN).
Proof.
  split; (split; [vm_compute; reflexivity|]).
  - apply (proj1 durations_are_numbers "90s"); vm_compute; reflexivity.
  - apply (proj2 durations_are_numbers "time:250ms"); vm_compute; reflexivity.
Defined.

Lemma parseInt10_leading_zero (v : string) :
  v <> EmptyString -> all_digits v = true ->
  parseInt10 (String "0" v) = parseInt10 v.
Proof.
  intros Hne Hd; destruct v as [|c v]; [congruence|].
  simpl in Hd; apply andb_true_iff in Hd as [Hc _].
  unfold parseInt10; rewrite Hc.
  change (is_digit "0") with true; cbv iota.
  reflexivity.
Qed.

(** X15: leading zeros do not change a duration (the digits are read in
    base ten): a string accepted by the Duration Parser is accepted with the
    same value when a zero is put in front of it. *)
Theorem leading_zero_keeps_duration (s : string) (d : jsnum) :
  parseTimeDuration s = Some d -> parseTimeDuration (String "0" s) = Some d.
Proof.
  intros Hs.
  destruct (timeRegex_match s) as [[v u]|] eqn:Hm;
    [|unfold parseTimeDuration in Hs; rewrite Hm in Hs; discriminate].
  apply timeRegex_match_inv in Hm as (-> & Hne & Hd & Hu).
  rewrite (parseTimeDuration_shape _ _ Hne Hd Hu) in Hs.
  change (String "0" (v ++ u)) with (String "0" v ++ u).
  rewrite (parseTimeDuration_shape (String "0" v) u) by (auto; discriminate).
  now rewrite parseInt10_leading_zero.
Qed.

Lemma leading_zero_keeps_duration_witness :
  parseTimeDuration "007s" = Some (Fin 7000).
Proof.
  do 2 apply leading_zero_keeps_duration; vm_compute; reflexivity.
Defined.

Open Scope list_scope.

(** ** The browser handle is closed at most once *)

Lemma bind_trace {A B} (c : M A) (k : A -> M B) (s : locals) :
  trace (bind c k s)
  = trace (c s) ++ match res (c s) with
                   | Ok a => trace (k a (final (c s)))
                   | Throw _ => []
                   end.
Proof.
  unfold bind; destruct (res (c s)); cbn [trace]; [reflexivity|].
  now rewrite app_nil_r.
Qed.

Lemma closes_app (t t' : list event) : closes (t ++ t') = closes t + closes t'.
Proof. unfold closes; now rewrite filter_app, length_app. Qed.

Lemma closes_none (t : list event) :
  Forall (fun e => is_close e = false) t -> closes t = 0.
Proof.
  unfold closes; induction 1 as [|e t He _ IH]; [reflexivity|].
  simpl; now rewrite He.
Qed.

Lemma operation_closes_nothing (env : Env) (options : OpenCommandOptions)
      (url : string) :
  triple (fun _ => True) (fun _ => True) (fun e => is_close e = false)
         (try_catch (operation env options url) report_error).
Proof.
  unfold operation, acquire, acquire_connect, acquire_launch, outfit, monitor,
    navigate, after_navigation, wait_for, report, report_error, clear_timeouts.
  triple_walk; auto.
Qed.

Lemma cleanup_closes_once (env : Env) (options : OpenCommandOptions) (s : locals) :
  closes (trace (cleanup env options s)) <= 1.
Proof.
  assert (forall s', closes (trace (clear_timeouts s')) = 0) as Hclear.
  { intros s'; apply closes_none.
    assert (triple (fun _ => True) (fun _ => True) (fun e => is_close e = false)
                   clear_timeouts) as H
      by (unfold clear_timeouts; triple_walk; auto).
    now apply (H s'). }
  assert (forall s', closes (trace (finalize_video env s')) = 0) as Hvideo.
  { intros s'; apply closes_none.
    assert (triple (fun _ => True) (fun _ => True) (fun e => is_close e = false)
                   (finalize_video env)) as H
      by (unfold finalize_video; triple_walk; auto).
    now apply (H s'). }
  assert (forall s', closes (trace (close_browser env options s')) <= 1) as Hclose.
  { intros s'; unfold close_browser.
    rewrite bind_trace; cbn [get trace res final app].
    destruct (browser s') as [b|]; [|cbn; lia].
    destruct (negb (is_connect options)); [|cbn; lia].
    rewrite bind_trace; cbn [await trace res final].
    destruct (close env); cbn; lia. }
  unfold cleanup.
  rewrite bind_trace, closes_app, Hclear.
  destruct (res (clear_timeouts s)); [|cbn; lia].
  rewrite bind_trace, closes_app, Hvideo.
  destruct (res (finalize_video env _)); [|cbn; lia].
  apply Hclose.
Qed.

(** X16: no run closes a browser handle twice: over a whole run
    [browser.close()] is called at most once. *)
Theorem browser_closed_at_most_once
        (env : Env) (query : string) (options : OpenCommandOptions) :
  closes (run env query options) <= 1.
Proof.
  destruct (run_cases env query options) as [[u Ha]|Hout].
  - rewrite (run_admitted _ _ _ _ _ Ha); cbv zeta.
    unfold protected, try_finally, report_failure; cbn [trace res].
    rewrite !closes_app.
    pose proof (operation_closes_nothing env
                  (with_defaults (with_url query options)) u initial I) as [_ Hbody].
    rewrite (closes_none _ Hbody).
    pose proof (cleanup_closes_once env (with_defaults (with_url query options))
                  (final (try_catch
                            (operation env (with_defaults (with_url query options)) u)
                            report_error initial))) as Hc.
    assert (closes preflight = 0) as -> by reflexivity.
    match goal with
    | |- _ + (_ + closes ?t) <= 1 =>
        assert (closes t = 0) as -> by (destruct (res _); try destruct (res _); reflexivity)
    end.
    lia.
  - rewrite closes_none; [lia|].
    eapply Forall_impl; [|exact Hout].
    intros [[]|[]]; simpl; tauto.
Qed.

(** ** Failures inside cleanup *)

Lemma cleanup_video_throw (env : Env) (options : OpenCommandOptions) (b : Browser)
      (path : string) (p : Page) (s : locals) (e : thrown) :
  records b path p s -> JsString.truthy path = true ->
  stopVideoRecording env = Throw e ->
  cleanup env options s
  = {| trace := [Call (CallStopVideoRecording p path)]; final := s; res := Throw e |}.
Proof.
  intros ([Hb Ht] & Hv & Hp) Hpath Hstop; unfold cleanup.
  rewrite bind_ok with (a := tt) by (now rewrite clear_timeouts_outcome).
  rewrite clear_timeouts_outcome, Ht, (set_timeouts_same _ Ht).
  cbn [prepend trace final res map app].
  assert (finalize_video env s
          = {| trace := [Call (CallStopVideoRecording p path)];
               final := s; res := Throw e |}) as Hf.
  { unfold finalize_video.
    rewrite bind_ok with (a := s) by reflexivity.
    cbn [prepend get trace final res app].
    rewrite Hv, Hp, Hpath; cbn [when].
    rewrite bind_throw with (e := e) by exact Hstop.
    reflexivity. }
  rewrite bind_throw with (e := e) by (now rewrite Hf).
  now rewrite Hf.
Qed.

Lemma cleanup_close_throw (env : Env) (options : OpenCommandOptions) (b : Browser)
      (s : locals) (e : thrown) :
  is_connect options = false ->
  owns b s ->
  (forall e', stopVideoRecording env <> Throw e') ->
  close env = Throw e ->
  cleanup env options s
  = {| trace := trace (finalize_video env s) ++ [Call (CallClose b)];
       final := s; res := Throw e |}.
Proof.
  intros Hc [Hb Ht] Hstop Hclose; unfold cleanup.
  rewrite bind_ok with (a := tt) by (now rewrite clear_timeouts_outcome).
  rewrite clear_timeouts_outcome, Ht, (set_timeouts_same _ Ht).
  cbn [prepend trace final res map app].
  destruct (finalize_video_completes env s Hstop) as [Hr Hf].
  rewrite bind_ok with (a := tt) by exact Hr.
  rewrite Hf; unfold close_browser.
  rewrite bind_ok with (a := s) by reflexivity.
  cbn [prepend get trace final res app].
  rewrite Hb, Hc; cbn [negb].
  rewrite bind_throw with (e := e) by exact Hclose.
  reflexivity.
Qed.

(** X17: a throw inside cleanup is not caught by the inner guard.  In a
    launch-mode run that launched its browser [b]: when the finalization of
    a started video throws, the run ends with that call and a "Playwright
    check error" item, and the browser is never closed; when the
    finalization passes and [browser.close()] throws, the run ends with the
    close call and a "Playwright check error" item, and "Browser closed."
    is never emitted. *)
Theorem cleanup_failures_surface
        (env : Env) (query : string) (options options' : OpenCommandOptions)
        (url : string) (b : Browser) :
  admitted env query options options' url ->
  is_connect options = false ->
  launch env = Ok b ->
  (forall path ctx p e,
     setupVideoRecording env = Ok (Some path) ->
     JsString.truthy path = true ->
     newContext env = Ok ctx ->
     newPage env = Ok p ->
     stopVideoRecording env = Throw e ->
     exists body,
       run env query options
       = body ++ [Call (CallStopVideoRecording p path); check_error e] /\
       Forall quiet body) /\
  (forall e,
     (forall e', stopVideoRecording env <> Throw e') ->
     close env = Throw e ->
     exists body fin,
       run env query options
       = body ++ fin ++ [Call (CallClose b); check_error e] /\
       Forall quiet body /\ Forall video_event fin).
Proof.
  intros Ha Hc Hl.
  assert (is_connect options' = false) as Hc'
    by (now rewrite (admitted_connect _ _ _ _ _ Ha)).
  assert (Forall quiet preflight) as Hpre
    by (repeat constructor; unfold quiet; simpl; tauto).
  split.
  - intros path ctx p e Hv Hpath Hx Hp Hstop.
    rewrite (run_admitted _ _ _ _ _ Ha); cbv zeta.
    unfold protected, try_finally, report_failure; cbn [trace res].
    pose proof (operation_recording env options' b Hc' Hl path ctx p Hv Hx Hp
                  url initial eq_refl) as [Hrec Hquiet].
    revert Hrec Hquiet.
    generalize (try_catch (operation env options' url) report_error initial).
    intros [t0 s0 r0]; cbn [trace final res]; intros Hrec Hquiet.
    rewrite (cleanup_video_throw env options' b path p s0 e Hrec Hpath Hstop).
    cbn [trace res].
    exists (preflight ++ t0); split.
    + now rewrite <- !app_assoc.
    + now apply Forall_app.
  - intros e Hstop Hclose.
    rewrite (run_admitted _ _ _ _ _ Ha); cbv zeta.
    unfold protected, try_finally, report_failure; cbn [trace res].
    pose proof (operation_owned env options' b Hc' Hl url initial eq_refl)
      as [Hown Hquiet].
    revert Hown Hquiet.
    generalize (try_catch (operation env options' url) report_error initial).
    intros [t0 s0 r0]; cbn [trace final res]; intros Hown Hquiet.
    rewrite (cleanup_close_throw env options' b s0 e Hc' Hown Hstop Hclose).
    cbn [trace res].
    exists (preflight ++ t0), (trace (finalize_video env s0)); split; [|split].
    + now rewrite <- !app_assoc.
    + now apply Forall_app.
    + apply finalize_video_events.
Qed.

Lemma cleanup_failures_surface_witness :
  (exists body,
     run (with_stopVideoRecording (Throw (ThrownError "page crashed")) Scenario.filming)
         "" Scenario.filmed_request
     = body ++ [Call (CallStopVideoRecording Scenario.blank "videos/run.webm");
                check_error (ThrownError "page crashed")] /\
     Forall quiet body) /\
  (exists body fin,
     run (with_close (Throw (ThrownError "browser has been closed")) Scenario.healthy)
         "" (Scenario.request "https://example.com" None None)
     = body ++ fin ++ [Call (CallClose (BrowserHandle 0));
                       check_error (ThrownError "browser has been closed")] /\
     Forall quiet body /\ Forall video_event fin).
Proof.
  split.
  - apply (proj1 (cleanup_failures_surface
                    (with_stopVideoRecording (Throw (ThrownError "page crashed"))
                                             Scenario.filming)
                    "" Scenario.filmed_request (with_defaults Scenario.filmed_request)
                    "https://example.com" (BrowserHandle 0)
                    ltac:(repeat split) eq_refl eq_refl)
                 "videos/run.webm" (ContextHandle 2) Scenario.blank
                 (ThrownError "page crashed"));
      reflexivity.
  - apply (proj2 (cleanup_failures_surface
                    (with_close (Throw (ThrownError "browser has been closed"))
                                Scenario.healthy)
                    "" (Scenario.request "https://example.com" None None)
                    (with_defaults (Scenario.request "https://example.com" None None))
                    "https://example.com" (BrowserHandle 0)
                    ltac:(repeat split) eq_refl eq_refl)
                 (ThrownError "browser has been closed")).
    + intros e' H; discriminate H.
    + reflexivity.
Defined.

(** ** The viewport *)

Lemma connect_port_none_inv (options : OpenCommandOptions) :
  connect_port options = None -> is_connect options = false.
Proof.
  unfold connect_port, is_connect.
  destruct (connectTo options) as [[|k]|]; simpl; congruence.
Qed.

Ltac viewport_side :=
  simpl in *;
  try match goal with
      | H : connect_port _ = None |- _ => apply connect_port_none_inv in H
      end;
  solve [ exact I
        | eexists; split; [eassumption|split; [assumption|left; reflexivity]]
        | eexists; split; [eassumption|split; [assumption|right; auto]]
        | repeat split; auto ].

Lemma protected_viewport (env : Env) (options : OpenCommandOptions) (url : string) :
  triple (fun _ => True) (fun _ => True)
         (viewport_event env (viewport options) (is_connect options))
         (protected env options (operation env options url)).
Proof.
  unfold_protected.
  triple_scan; try viewport_side.
Qed.

(** X18: the viewport is set from the [viewport] option when it is given
    and can be read, else, for a launched browser only, from the configured
    default viewport; a browser attached to keeps its viewport unless the
    option asks otherwise.  "Invalid viewport format" is emitted only for a
    [viewport] option that cannot be read, and only for a launched
    browser. *)
Theorem viewport_source
        (env : Env) (query : string) (options : OpenCommandOptions) :
  Forall (viewport_event env (viewport options) (is_connect options))
         (run env query options).
Proof.
  apply run_forall.
  - intros [[]|[]]; simpl; tauto.
  - intros options' url Ha.
    destruct (admitted_fields _ _ _ _ _ Ha) as (_ & _ & Hvp & _).
    rewrite <- Hvp, <- (admitted_connect _ _ _ _ _ Ha).
    now apply (protected_viewport env options' url).
Qed.

(** ** The diagnostics of a run *)

Lemma diagnostics_app (t t' : list event) :
  diagnostics (t ++ t') = diagnostics t ++ diagnostics t'.
Proof. apply flat_map_app. Qed.

Lemma diagnostics_none (t : list event) :
  Forall not_diagnostic t -> diagnostics t = [].
Proof.
  induction 1 as [|e t He _ IH]; [reflexivity|].
  unfold diagnostics in *; cbn [flat_map]; rewrite IH, app_nil_r.
  destruct e as [[]|]; simpl in *; try reflexivity; contradiction.
Qed.

Lemma diagnostics_lines (l : list string) :
  diagnostics (map (fun m => Yield (Diagnostic m)) l) = l.
Proof. induction l as [|m l IH]; [reflexivity|]; simpl; now rewrite IH. Qed.

Lemma bind_ok_inv {A B} (c : M A) (k : A -> M B) (s : locals) (b : B) :
  res (bind c k s) = Ok b ->
  exists a, res (c s) = Ok a /\ res (k a (final (c s))) = Ok b /\
            final (bind c k s) = final (k a (final (c s))).
Proof.
  unfold bind; destruct (res (c s)) as [a|e]; cbn [res final]; [|discriminate].
  intros H; now exists a.
Qed.

Section Buffers.

Variable env : Env.
Variable options : OpenCommandOptions.
Variables (cm nm : list string).

Hypothesis console_attached : setupConsoleLogging env = Ok cm.
Hypothesis network_attached : setupNetworkMonitoring env = Ok nm.

Lemma monitor_fills (url : string) (p : Page) (s : locals) :
  buffers_hold cm nm (final (monitor env options url p s)).
Proof.
  unfold monitor.
  assert (forall c s', when (String.eqb url "current" && is_connect options) (perform c) s'
                       = {| trace := if String.eqb url "current" && is_connect options
                                     then [Call c] else [];
                            final := s'; res := Ok tt |}) as Hwhen
    by (intros c s'; unfold when; now destruct (_ && _)).
  rewrite bind_ok with (a := tt) by (now rewrite Hwhen).
  rewrite Hwhen; cbn [prepend final].
  rewrite bind_ok with (a := cm) by exact console_attached.
  rewrite bind_ok with (a := tt) by reflexivity.
  rewrite bind_ok with (a := tt) by apply debug_log_res.
  rewrite debug_log_final.
  rewrite bind_ok with (a := nm) by exact network_attached.
  rewrite bind_ok with (a := tt) by reflexivity.
  cbn [prepend final await modify]; rewrite debug_log_final.
  split; reflexivity.
Qed.

Lemma navigate_keeps_buffers (url : string) (p : Page) :
  triple (buffers_hold cm nm) (buffers_hold cm nm) (fun _ => True) (navigate env options url p).
Proof. unfold navigate; triple_walk; auto. Qed.

Lemma settled_fills (url : string) (p : Page) (s : locals) :
  res (settled env options url s) = Ok p ->
  buffers_hold cm nm (final (settled env options url s)).
Proof.
  unfold settled, attached; intros H.
  apply bind_ok_inv in H as (p1 & H1 & H2 & ->).
  apply bind_ok_inv in H1 as (p2 & H3 & H4 & Hf1).
  apply bind_ok_inv in H4 as ([] & H5 & H6 & Hf2).
  apply bind_ok_inv in H2 as ([] & H7 & _ & ->).
  cbn [ret final].
  apply navigate_keeps_buffers.
  rewrite Hf1, Hf2; cbn [ret final].
  apply monitor_fills.
Qed.

Lemma settled_quiet (url : string) (s : locals) :
  Forall not_diagnostic (trace (settled env options url s)).
Proof.
  assert (triple (fun _ => True) (fun _ => True) not_diagnostic
                 (settled env options url)) as H.
  { unfold settled, attached, acquire, acquire_connect, acquire_launch, outfit,
      monitor, navigate.
    triple_walk; simpl; auto. }
  now apply (H s).
Qed.

Lemma wait_for_completes (p : Page) (s : locals) :
  res (wait_for env options p s) = Ok tt /\
  final (wait_for env options p s) = s /\
  Forall not_diagnostic (trace (wait_for env options p s)).
Proof.
  assert (triple (fun s' => s' = s) (fun s' => s' = s) not_diagnostic
                 (wait_for env options p)) as H
    by (unfold wait_for; triple_walk; simpl; auto).
  destruct (H s eq_refl) as [Hf Ht]; split; [|split; assumption].
  unfold wait_for.
  destruct (wait options) as [w|]; [|reflexivity].
  destruct (JsString.truthy w); [|reflexivity]; cbn [when].
  unfold try_catch.
  match goal with
  | |- res (match res ?o with _ => _ end) = _ => destruct (res o) as [[]|e] eqn:Hr
  end; [exact Hr|reflexivity].
Qed.

(** after the diagnostics of [report]: markup, screenshot, then the [catch]
    and [finally] blocks *)
Lemma report_tail_quiet (p : Page) (c : M unit) (s : locals) :
  (forall s', Forall not_diagnostic (trace (c s'))) ->
  Forall not_diagnostic (trace (protected env options c s)).
Proof.
  intros Hc.
  assert (triple (fun _ => True) (fun _ => True) not_diagnostic
                 (protected env options c)) as H.
  { unfold protected.
    apply triple_try_finally.
    - apply triple_try_catch; [intros s' _; split; [exact I|apply Hc]|].
      intros e; unfold report_error, clear_timeouts; triple_walk; simpl; auto.
    - unfold cleanup, finalize_video, close_browser, clear_timeouts.
      triple_walk; simpl; auto. }
  now apply (H s).
Qed.

Lemma rest_diagnostics (p : Page) (s : locals) :
  buffers_hold cm nm s ->
  diagnostics (trace (protected env options (after_navigation env options p) s))
  = outputMessages env cm nm options.
Proof.
  intros [Hcm Hnm]; unfold after_navigation.
  destruct (wait_for_completes p s) as (Hw & Hwf & Hwt).
  rewrite (protected_bind_ok env options _ _ _ tt Hw), Hwf.
  cbn [prepend trace].
  rewrite diagnostics_app, (diagnostics_none _ Hwt); cbn [app].
  rewrite (protected_bind_ok env options _ _ _ tt)
    by (now rewrite clear_timeouts_outcome).
  rewrite clear_timeouts_outcome; cbn [prepend trace final].
  rewrite diagnostics_app, diagnostics_none
    by (apply Forall_forall; intros e He; apply in_map_iff in He as (t & <- & _);
        exact I).
  cbn [app]; unfold report.
  rewrite (protected_bind_ok env options _ _ _ (set_timeouts [] s)) by reflexivity.
  cbn [prepend trace final get app].
  rewrite (protected_bind_ok env options _ _ _ tt) by (now rewrite for_of_yield).
  rewrite for_of_yield; cbn [prepend trace final consoleMessages networkMessages set_timeouts].
  rewrite diagnostics_app, diagnostics_lines, Hcm, Hnm.
  rewrite diagnostics_none; [apply app_nil_r|].
  apply report_tail_quiet; [exact p|].
  intros s'.
  match goal with
  | |- Forall _ (trace (?c s')) =>
      assert (triple (fun _ => True) (fun _ => True) not_diagnostic c) as H
        by (triple_walk; simpl; auto)
  end.
  now apply (H s').
Qed.

End Buffers.

(** X19: once the page is acquired, monitored and navigated, the
    diagnostics lines of the run are exactly, and in order, what
    [outputMessages] makes of the two buffers that the console and network
    collectors returned and of the request with its defaults; they are
    emitted whether or not the wait directive fails or a later capture
    throws. *)
Theorem diagnostics_are_the_collected_messages
        (env : Env) (query : string) (options options' : OpenCommandOptions)
        (url : string) (p : Page) (cm nm : list string) :
  admitted env query options options' url ->
  res (settled env options' url initial) = Ok p ->
  setupConsoleLogging env = Ok cm ->
  setupNetworkMonitoring env = Ok nm ->
  diagnostics (run env query options) = outputMessages env cm nm options'.
Proof.
  intros Ha Hp Hcm Hnm.
  rewrite (run_settled _ _ _ _ _ _ Ha Hp); cbv zeta.
  pose proof (settled_fills env options' cm nm Hcm Hnm url p initial Hp) as Hfill.
  pose proof (settled_quiet env options' url initial) as Hquiet.
  revert Hfill Hquiet.
  generalize (trace (settled env options' url initial)) as t0.
  generalize (final (settled env options' url initial)) as s0.
  intros s0 t0 Hfill Hquiet.
  rewrite !diagnostics_app.
  rewrite (diagnostics_none t0 Hquiet).
  rewrite (rest_diagnostics env options' cm nm p s0 Hfill).
  assert (diagnostics preflight = []) as -> by reflexivity.
  assert (forall o : outcome unit, diagnostics (report_failure o) = []) as ->
    by (intros o; unfold report_failure; now destruct (res o)).
  cbn [app]; apply app_nil_r.
Qed.

Lemma diagnostics_are_the_collected_messages_witness :
  diagnostics
    (run (with_buffers ["[log] ready"] ["GET https://example.com/ 200"]
                       Scenario.hidden_element)
         "" (Scenario.request "https://example.com" None (Some "#late")))
  = ["[log] ready"; "GET https://example.com/ 200"].
Proof.
  rewrite (diagnostics_are_the_collected_messages
             (with_buffers ["[log] ready"] ["GET https://example.com/ 200"]
                           Scenario.hidden_element)
             "" (Scenario.request "https://example.com" None (Some "#late"))
             (with_defaults (Scenario.request "https://example.com" None (Some "#late")))
             "https://example.com" Scenario.blank
             ["[log] ready"] ["GET https://example.com/ 200"]).
  - reflexivity.
  - repeat split.
  - reflexivity.
  - reflexivity.
  - reflexivity.
Defined.

(** ** Collectors are attached before the page moves *)

Lemma split_after_prefix {X} (P : X -> Prop) (A R pre : list X) (e : X) (post : list X) :
  A ++ R = pre ++ e :: post -> Forall (fun x => ~ P x) A -> P e ->
  exists mid, pre = A ++ mid /\ R = mid ++ e :: post.
Proof.
  revert pre; induction A as [|a A IH]; intros pre H HA He.
  - now exists pre.
  - inversion HA as [|? ? Ha HA']; subst.
    destruct pre as [|x pre]; simpl in H; inversion H; subst.
    + contradiction.
    + destruct (IH pre H2 HA' He) as (mid & -> & ->).
      now exists mid.
Qed.

Lemma protected_forall (env : Env) (options : OpenCommandOptions) (P : event -> Prop)
      (c : M unit) (s : locals) :
  (forall e, triple (fun _ => True) (fun _ => True) P (report_error e)) ->
  triple (fun _ => True) (fun _ => True) P (cleanup env options) ->
  Forall P (trace (c s)) ->
  Forall P (trace (protected env options c s)).
Proof.
  intros Hh Hf Hc; unfold protected, try_finally, try_catch; cbn [trace].
  apply Forall_app; split; [|now apply Hf].
  destruct (res (c s)) as [a|e]; [exact Hc|]; cbn [trace].
  apply Forall_app; split; [exact Hc|now apply Hh].
Qed.

Lemma report_failure_forall {A} (P : event -> Prop) (o : outcome A) :
  (forall m, P (Yield (PlaywrightCheckError m))) -> Forall P (report_failure o).
Proof.
  intros H; unfold report_failure; destruct (res o); repeat constructor.
  apply H.
Qed.

Section Order.

Variable env : Env.
Variable options : OpenCommandOptions.

Lemma attached_still (url : string) (s : locals) :
  Forall still (trace (attached env options url s)).
Proof.
  assert (triple (fun _ => True) (fun _ => True) still (attached env options url)) as H.
  { unfold attached, acquire, acquire_connect, acquire_launch, outfit, monitor.
    triple_walk; simpl; auto. }
  now apply (H s).
Qed.

Lemma report_error_still (e : thrown) :
  triple (fun _ => True) (fun _ => True) still (report_error e).
Proof. unfold report_error, clear_timeouts; triple_walk; simpl; auto. Qed.

Lemma cleanup_still :
  triple (fun _ => True) (fun _ => True) still (cleanup env options).
Proof.
  unfold cleanup, finalize_video, close_browser, clear_timeouts.
  triple_walk; simpl; auto.
Qed.

Lemma monitor_calls (url : string) (p : Page) (s : locals) :
  res (monitor env options url p s) = Ok tt ->
  In (Call (CallSetupConsoleLogging p)) (trace (monitor env options url p s)) /\
  In (Call (CallSetupNetworkMonitoring p)) (trace (monitor env options url p s)).
Proof.
  unfold monitor; intros H.
  apply bind_ok_inv in H as ([] & H0 & H & _).
  pose proof H as H'.
  apply bind_ok_inv in H' as (cm & Hcm & H' & _).
  apply bind_ok_inv in H' as ([] & Hm & H' & _).
  apply bind_ok_inv in H' as ([] & Hd & _ & _).
  split.
  - eapply bind_in_r; [exact H0|].
    apply bind_in_l; simpl; auto.
  - eapply bind_in_r; [exact H0|].
    eapply bind_in_r; [exact Hcm|].
    eapply bind_in_r; [exact Hm|].
    eapply bind_in_r; [exact Hd|].
    apply bind_in_l; simpl; auto.
Qed.

Lemma attached_calls (url : string) (p : Page) (s : locals) :
  res (attached env options url s) = Ok p ->
  In (Call (CallSetupConsoleLogging p)) (trace (attached env options url s)) /\
  In (Call (CallSetupNetworkMonitoring p)) (trace (attached env options url s)).
Proof.
  unfold attached; intros H.
  pose proof H as H'.
  apply bind_ok_inv in H' as (p1 & Hp1 & H' & _).
  pose proof H' as H''.
  apply bind_ok_inv in H'' as ([] & Hm & Hr & _).
  cbn [ret res] in Hr; inversion Hr; subst p1.
  destruct (monitor_calls url p _ Hm) as [Hc Hn].
  split; (eapply bind_in_r; [exact Hp1|]; apply bind_in_l; assumption).
Qed.

Lemma continuation_moves_only (url : string) (p : Page) (s : locals) :
  Forall (moves_only p)
         (trace (protected env options
                   (navigate env options url p ;; after_navigation env options p) s)).
Proof.
  assert (triple (fun _ => True) (fun _ => True) (moves_only p)
                 (protected env options
                    (navigate env options url p ;; after_navigation env options p)))
    as H.
  { unfold protected, navigate, after_navigation, wait_for, report, report_error,
      cleanup, finalize_video, close_browser, clear_timeouts.
    triple_walk; simpl; auto. }
  now apply (H s).
Qed.

End Order.

(** X20: the collectors are attached before the page moves: in every run,
    a call to [goto] or [reload] comes after the calls that attach the
    console collector and the network collector, and it moves the very page
    they were attached to. *)
Theorem collectors_precede_navigation
        (env : Env) (query : string) (options : OpenCommandOptions)
        (pre : list event) (e : event) (post : list event) :
  run env query options = pre ++ e :: post ->
  ~ still e ->
  exists p,
    navigates p e /\
    In (Call (CallSetupConsoleLogging p)) pre /\
    In (Call (CallSetupNetworkMonitoring p)) pre.
Proof.
  intros Hrun He.
  destruct (run_cases env query options) as [[u Ha]|Hout].
  2:{ exfalso; rewrite Hrun in Hout.
      apply Forall_app in Hout as [_ Hout]; inversion Hout as [|? ? H _]; subst.
      destruct e as [[]|[]]; simpl in *; tauto. }
  set (options' := with_defaults (with_url query options)) in *.
  destruct (res (attached env options' u initial)) as [p|e0] eqn:Hp.
  - rewrite (run_attached _ _ _ _ _ _ Ha Hp) in Hrun; cbv zeta in Hrun.
    destruct (attached_calls env options' u p initial Hp) as [Hc Hn].
    pose proof (attached_still env options' u initial) as Hstill.
    pose proof (continuation_moves_only env options' u p
                  (final (attached env options' u initial))) as Hmoves.
    revert Hrun Hc Hn Hstill Hmoves.
    generalize (trace (attached env options' u initial)) as t0.
    generalize (protected env options'
                  (navigate env options' u p ;; after_navigation env options' p)
                  (final (attached env options' u initial))) as rest.
    intros rest t0 Hrun Hc Hn Hstill Hmoves.
    rewrite app_assoc in Hrun.
    destruct (split_after_prefix (fun x => ~ still x) _ _ _ _ _ Hrun)
      as (mid & -> & Hrest); [| exact He |].
    { apply Forall_app; split.
      - repeat constructor; simpl; tauto.
      - eapply Forall_impl; [|exact Hstill]; intros x Hx; tauto. }
    exists p; split; [|split].
    + assert (In e (trace rest ++ report_failure rest)) as Hin
        by (rewrite Hrest; apply in_or_app; right; now left).
      apply in_app_or in Hin as [Hin|Hin].
      * rewrite Forall_forall in Hmoves; specialize (Hmoves _ Hin).
        destruct e as [[]|[]]; simpl in *; tauto.
      * unfold report_failure in Hin; destruct (res rest); simpl in Hin;
          [contradiction|].
        destruct Hin as [<-|[]]; simpl in He; tauto.
    + apply in_or_app; left; apply in_or_app; now right.
    + apply in_or_app; left; apply in_or_app; now right.
  - exfalso.
    rewrite (run_admitted _ _ _ _ _ Ha) in Hrun; cbv zeta in Hrun.
    assert (Forall still (trace (protected env options' (operation env options' u) initial)))
      as Hbody.
    { apply protected_forall;
        [apply report_error_still|apply cleanup_still|].
      rewrite operation_attached.
      rewrite bind_throw with (e := e0) by exact Hp.
      apply attached_still. }
    assert (Forall still (run env query options)) as Hall.
    { rewrite (run_admitted _ _ _ _ _ Ha); cbv zeta.
      apply Forall_app; split; [repeat constructor; simpl; tauto|].
      apply Forall_app; split; [exact Hbody|].
      apply report_failure_forall; intros m; exact I. }
    rewrite (run_admitted _ _ _ _ _ Ha) in Hall; cbv zeta in Hall.
    fold options' in Hall; rewrite Hrun in Hall.
    apply Forall_app in Hall as [_ Hall]; inversion Hall; subst; tauto.
Qed.

Lemma collectors_precede_navigation_witness :
  exists p,
    navigates p (Call (CallGoto Scenario.blank "https://example.com" 30000)) /\
    In (Call (CallSetupConsoleLogging p))
       (preflight ++ [Yield LaunchingBrowser; Call (CallLaunch true);
                      Call CallSetupVideoRecording; Call (CallNewContext None);
                      Call CallNewPage;
                      Call (CallSetupConsoleLogging Scenario.blank);
                      Call (CallSetupNetworkMonitoring Scenario.blank);
                      Yield (NavigatingTo "https://example.com")]) /\
    In (Call (CallSetupNetworkMonitoring p))
       (preflight ++ [Yield LaunchingBrowser; Call (CallLaunch true);
                      Call CallSetupVideoRecording; Call (CallNewContext None);
                      Call CallNewPage;
                      Call (CallSetupConsoleLogging Scenario.blank);
                      Call (CallSetupNetworkMonitoring Scenario.blank);
                      Yield (NavigatingTo "https://example.com")]).
Proof.
  apply (collectors_precede_navigation
           Scenario.healthy "" (Scenario.request "https://example.com" None None)
           _ _
           [Yield PageLoaded; Call (CallWaitForLoadState Scenario.blank 30000);
            Call (CallCaptureScreenshot Scenario.blank);
            Call (CallClose (BrowserHandle 0)); Yield BrowserClosed]).
  - vm_compute; reflexivity.
  - simpl; tauto.
Defined.

(** ** The markup is framed *)

Section Markup.

Variable env : Env.
Variable options : OpenCommandOptions.

Lemma report_capture (p : Page) (s : locals) :
  report env options p s
  = (s0 <- get ;;
     for_of (outputMessages env (consoleMessages s0) (networkMessages s0) options)
            (fun m => yield (Diagnostic m)) ;;
     capture env options p) s.
Proof. reflexivity. Qed.

(** the events of the protected remainder of the operation, stage by stage *)
Lemma after_navigation_stages (p : Page) (s : locals) :
  let rest := protected env options (after_navigation env options p) s in
  let last := protected env options (capture env options p) (set_timeouts [] s) in
  trace rest
  = trace (wait_for env options p s)
      ++ map (fun t => Call (CallClearTimeout t)) (timeouts s)
      ++ map (fun m => Yield (Diagnostic m))
             (outputMessages env (consoleMessages s) (networkMessages s) options)
      ++ trace last /\
  report_failure rest = report_failure last.
Proof.
  cbv zeta; unfold after_navigation.
  destruct (wait_for_completes env options p s) as (Hw & Hwf & _).
  rewrite (protected_bind_ok env options _ _ _ tt Hw), Hwf.
  rewrite (protected_bind_ok env options _ _ _ tt)
    by (now rewrite clear_timeouts_outcome).
  rewrite clear_timeouts_outcome; cbn [final trace].
  rewrite (protected_ext env options _ _ _ (report_capture p _)).
  rewrite (protected_bind_ok env options _ _ _ (set_timeouts [] s)) by reflexivity.
  cbn [get final trace].
  rewrite (protected_bind_ok env options _ _ _ tt) by (now rewrite for_of_yield).
  rewrite for_of_yield; cbn [final trace].
  unfold prepend, report_failure; cbn [trace res app consoleMessages networkMessages
                                         set_timeouts].
  split; reflexivity.
Qed.

Lemma report_error_plain (e : thrown) :
  triple (fun _ => True) (fun _ => True) plain (report_error e).
Proof. unfold report_error, clear_timeouts; triple_walk; simpl; auto. Qed.

Lemma cleanup_plain :
  triple (fun _ => True) (fun _ => True) plain (cleanup env options).
Proof.
  unfold cleanup, finalize_video, close_browser, clear_timeouts.
  triple_walk; simpl; auto.
Qed.

Lemma settled_plain (url : string) (s : locals) :
  Forall plain (trace (settled env options url s)).
Proof.
  assert (triple (fun _ => True) (fun _ => True) plain (settled env options url)) as H.
  { unfold settled, attached, acquire, acquire_connect, acquire_launch, outfit,
      monitor, navigate.
    triple_walk; simpl; auto. }
  now apply (H s).
Qed.

Lemma wait_for_plain (p : Page) (s : locals) :
  Forall plain (trace (wait_for env options p s)).
Proof.
  assert (triple (fun _ => True) (fun _ => True) plain (wait_for env options p)) as H
    by (unfold wait_for; triple_walk; simpl; auto).
  now apply (H s).
Qed.

Lemma shoot_plain (p : Page) (s : locals) :
  Forall plain (trace (protected env options (shoot env options p) s)).
Proof.
  apply protected_forall; [exact report_error_plain|exact cleanup_plain|].
  assert (triple (fun _ => True) (fun _ => True) plain (shoot env options p)) as H
    by (unfold shoot; triple_walk; simpl; auto).
  now apply (H s).
Qed.

(** the last stage: nothing of the markup, or the framed markup once *)
Lemma capture_framed (p : Page) (s : locals) :
  let last := protected env options (capture env options p) s in
  Forall plain (trace last) \/
  exists c t2,
    html options = Some true /\ content env = Ok c /\
    trace last = Call (CallContent p) :: framed_markup c ++ t2 /\
    Forall plain t2.
Proof.
  cbv zeta; unfold capture.
  destruct (html options) as [[|]|] eqn:Hh.
  - destruct (content env) as [c|e] eqn:Hc.
    + right; exists c, (trace (protected env options (shoot env options p) s)).
      split; [reflexivity|split; [reflexivity|split; [|apply shoot_plain]]].
      assert ((htmlContent <- await (CallContent p) (Ok c) ;;
               yield HtmlBegin ;; yield (HtmlContent htmlContent) ;; yield HtmlEnd) s
              = {| trace := Call (CallContent p) :: framed_markup c;
                   final := s; res := Ok tt |}) as Hb.
      { reflexivity. }
      pose proof (protected_bind_ok env options
                    (htmlContent <- await (CallContent p) (Ok c) ;;
                     yield HtmlBegin ;; yield (HtmlContent htmlContent) ;;
                     yield HtmlEnd)
                    (fun _ => shoot env options p) s tt) as Hpb.
      rewrite Hb in Hpb; exact (f_equal trace (Hpb eq_refl)).
    + left; apply protected_forall; [exact report_error_plain|exact cleanup_plain|].
      cbv beta iota.
      rewrite bind_throw with (e := e)
        by (rewrite bind_throw with (e := e) by reflexivity; reflexivity).
      rewrite bind_throw with (e := e) by reflexivity.
      repeat constructor.
  - left.
    rewrite (protected_bind_ok env options _ _ _ tt) by reflexivity.
    apply shoot_plain.
  - left.
    rewrite (protected_bind_ok env options _ _ _ tt) by reflexivity.
    apply shoot_plain.
Qed.

End Markup.

(** X21: the markup of the page is emitted at most once in a run and always
    framed: either the run emits none of the three markup items, or the
    [html] option is [true], [page.content()] returned the markup, and the
    run emits, one after the other and with nothing in between, the start
    line, that markup and the end line, and no markup item anywhere else. *)
Theorem markup_is_framed
        (env : Env) (query : string) (options : OpenCommandOptions) :
  Forall plain (run env query options) \/
  exists t1 c t2,
    html options = Some true /\ content env = Ok c /\
    run env query options = t1 ++ framed_markup c ++ t2 /\
    Forall plain t1 /\ Forall plain t2.
Proof.
  destruct (run_cases env query options) as [[u Ha]|Hout].
  2:{ left; eapply Forall_impl; [|exact Hout].
      intros [[]|[]]; simpl; tauto. }
  set (options' := with_defaults (with_url query options)) in *.
  assert (Forall plain preflight) as Hpre by (repeat constructor).
  destruct (res (settled env options' u initial)) as [p|e0] eqn:Hp.
  - rewrite (run_settled _ _ _ _ _ _ Ha Hp); cbv zeta.
    pose proof (settled_plain env options' u initial) as Hs.
    revert Hs.
    generalize (trace (settled env options' u initial)) as t0.
    generalize (final (settled env options' u initial)) as s0.
    intros s0 t0 Hs.
    destruct (after_navigation_stages env options' p s0) as [-> ->].
    pose proof (wait_for_plain env options' p s0) as Hw.
    assert (Forall plain (map (fun t => Call (CallClearTimeout t)) (timeouts s0)))
      as Hc by (apply Forall_forall; intros x Hx;
                apply in_map_iff in Hx as (t & <- & _); exact I).
    assert (Forall plain
              (map (fun m => Yield (Diagnostic m))
                   (outputMessages env (consoleMessages s0) (networkMessages s0)
                                   options'))) as Hd
      by (apply Forall_forall; intros x Hx;
          apply in_map_iff in Hx as (t & <- & _); exact I).
    destruct (capture_framed env options' p (set_timeouts [] s0))
      as [Hlast|(c & t2 & Hh & Hcontent & Hlast & Ht2)].
    + left.
      repeat first [ assumption
                   | apply report_failure_forall; intros m; exact I
                   | apply Forall_app; split ].
    + right; rewrite Hlast.
      exists (preflight ++ t0 ++ trace (wait_for env options' p s0)
                ++ map (fun t => Call (CallClearTimeout t)) (timeouts s0)
                ++ map (fun m => Yield (Diagnostic m))
                       (outputMessages env (consoleMessages s0) (networkMessages s0)
                                       options')
                ++ [Call (CallContent p)]),
        c,
        (t2 ++ report_failure
                 (protected env options' (capture env options' p) (set_timeouts [] s0))).
      split; [|split; [exact Hcontent|split; [|split]]].
      * destruct (admitted_fields _ _ _ _ _ Ha) as (_ & _ & _ & _ & _ & _ & _ & _ & Hh').
        fold options' in Hh'; rewrite Hh' in Hh.
        destruct (html options) as [[|]|]; congruence.
      * rewrite <- !app_assoc; cbn [app]; rewrite <- !app_assoc; reflexivity.
      * repeat first [ assumption | apply Forall_app; split ].
        repeat constructor.
      * apply Forall_app; split; [exact Ht2|].
        apply report_failure_forall; intros m; exact I.
  - left.
    rewrite (run_admitted _ _ _ _ _ Ha); cbv zeta; fold options'.
    apply Forall_app; split; [exact Hpre|].
    apply Forall_app; split;
      [|apply report_failure_forall; intros m; exact I].
    apply protected_forall;
      [apply report_error_plain|apply cleanup_plain|].
    rewrite operation_settled.
    rewrite bind_throw with (e := e0) by exact Hp.
    apply settled_plain.
Qed.
